(** * The expression evaluator of [src/interpreter.ts]

    A shallow embedding of the interpreter: runtime values, the AST, the
    interpreter state objects and the recursive evaluator, followed by the
    properties the specification states about them.

    Modelling conventions.
    - A JavaScript number is an IEEE 754 binary64 value: [float].  Strings
      are [string]; what depends on their code units (their order, their
      length and indices) is taken from the host.
    - A JavaScript object used as a mapping (the context, the function
      table, a host object) has own properties, a finite map, and the members
      its prototype chain provides, a second finite map that is consulted
      when the own properties do not have the key, as [in] and [object[key]]
      do.  An object built by an object literal inherits the members of
      [Object.prototype].  Properties are data properties; a host object
      carries the address that [===] compares.
    - Converting an object to a string or a number runs the object's own
      [toString] and [valueOf]: host code, which may change the host's world
      and may throw, as the engine does for an object that has neither.
    - The state objects whose identity matters ([InterpreterState], its
      [context] and its [functions]) live in an object store; [setFunction]
      and [evaluate] allocate in it as the object literals of the source do.
    - A host function may have effects and may throw: it transforms a host
      world [W] and returns a completion.  Host code does not write to the
      state objects.  The members of a function table, its own and the
      inherited ones, are what [Functions] types them as: values that are
      not falsy, called as they are; calling one that is not a function is
      the throw of a TypeError.
    - The evaluator keeps a ghost trace of the nodes it enters, of the host
      functions it invokes and of the conversions it asks of objects; the
      trace is what "evaluated" and "invoked" mean in the statements below.
    - Symbols and BigInts are not among the values. *)

From Stdlib Require Import ZArith Floats DecimalString.
From stdpp Require Import base option list gmap strings.

Set Warnings "-register-all".

(** ** Runtime values *)

Inductive Value : Type :=
| VUndefined
| VNull
| VBool (b : bool)
| VNum (n : float)
| VStr (s : string)
| VObj (address : positive) (fields : gmap string Value).

(** The values that are not objects. *)
Inductive primitive : Type :=
| PUndefined
| PNull
| PBool (b : bool)
| PNum (n : float)
| PStr (s : string).

Definition as_primitive (v : Value) : option primitive :=
  match v with
  | VUndefined => Some PUndefined
  | VNull => Some PNull
  | VBool b => Some (PBool b)
  | VNum n => Some (PNum n)
  | VStr s => Some (PStr s)
  | VObj _ _ => None
  end.

(** What a [throw] carries: the evaluator's own [ExpressionError] (imported
    from [./index]; only its [message] is used), or anything else. *)
Inductive thrown : Type :=
| ExpressionError (message : string)
| HostError (payload : Value).

Inductive completion (A : Type) : Type :=
| Normal (a : A)
| Throw (e : thrown).
Arguments Normal {A} a.
Arguments Throw {A} e.

(** [(...args: unknown[]) => unknown]: host code, free to change the host's
    world and to throw. *)
Definition host_function (W : Type) : Type :=
  list Value -> W -> completion Value * W.

(** The preferred type [ToPrimitive] asks an object for. *)
Inductive hint : Type :=
| HintString
| HintNumber.

(** ** What the source takes from the language and from the host

    The pieces of ECMAScript whose definition is not part of this program,
    and the behaviour of the host's objects, are parameters. *)
Record Builtins (W : Type) : Type := {
  (** [Number::toString] outside the integers below 2^53. *)
  fraction_to_string : float -> string;
  (** [StringToNumber]. *)
  string_to_number : string -> float;
  (** [Number::remainder], the [%] of two numbers. *)
  remainder : float -> float -> float;
  (** [x < y] on two strings, by UTF-16 code units. *)
  string_less : string -> string -> bool;
  (** What the object's own [Symbol.toPrimitive], [toString] and [valueOf]
      answer when [ToPrimitive] calls them: host code; for an object that
      has none of them, the throw of the engine's TypeError. *)
  object_to_primitive :
    hint -> positive -> gmap string Value -> W -> completion Value * W;
  (** The TypeError of [ToPrimitive] for an answer that is an object. *)
  type_error : Value;
  (** What the prototype chain of a value gives for a key (for a number, a
      boolean or a string: its wrapper, with the [length] and the indices of
      a string), when the value is not an object that has the key itself. *)
  inherited_member : Value -> string -> option Value;
  (** The members of [Object.prototype], which every object built by an
      object literal inherits: as values, and as what calling one does (a
      member that is not a function throws a TypeError when called). *)
  object_prototype : gmap string Value;
  object_prototype_call : gmap string (host_function W)
}.
Arguments fraction_to_string {W} _.
Arguments string_to_number {W} _.
Arguments remainder {W} _.
Arguments string_less {W} _.
Arguments object_to_primitive {W} _.
Arguments type_error {W} _.
Arguments inherited_member {W} _.
Arguments object_prototype {W} _.
Arguments object_prototype_call {W} _.

Definition is_nullish (v : Value) : bool :=
  match v with
  | VUndefined | VNull => true
  | _ => false
  end.

Definition is_number (v : Value) : bool :=
  match v with
  | VNum _ => true
  | _ => false
  end.


(** [ToBoolean]. *)
Definition truthy (v : Value) : bool :=
  match v with
  | VUndefined | VNull => false
  | VBool b => b
  | VNum n => negb (PrimFloat.is_zero n || PrimFloat.is_nan n)
  | VStr s => negb (String.eqb s "")
  | VObj _ _ => true
  end.

(** The integer a float denotes, when it is one of magnitude below 2^53. *)
Definition safe_integer (x : float) : option Z :=
  match Prim2SF x with
  | S754_finite sign m e =>
      let signed (z : Z) := if sign then Z.opp z else z in
      if (0 <? e)%Z then None
      else if (Z.pos m mod 2 ^ (- e) =? 0)%Z
           then Some (signed (Z.pos m / 2 ^ (- e))%Z)
           else None
  | _ => None
  end.

(** [a === b]. *)
Definition strict_equal (a b : Value) : bool :=
  match a, b with
  | VUndefined, VUndefined => true
  | VNull, VNull => true
  | VBool x, VBool y => Bool.eqb x y
  | VNum x, VNum y => PrimFloat.eqb x y
  | VStr x, VStr y => String.eqb x y
  | VObj x _, VObj y _ => Pos.eqb x y
  | _, _ => false
  end.

(** ** The AST ([./parser]) *)

Inductive literal : Type :=
| LNumber (n : float)
| LString (s : string)
| LBoolean (b : bool)
| LNull.

Inductive node : Type :=
| Literal (value : literal)
| Identifier (name : string)
| MemberExpression (object property : node) (computed : bool)
| CallExpression (callee : string) (arguments : list node)
| BinaryExpression (operator : string) (left right : node)
| UnaryExpression (operator : string) (prefix : bool) (argument : node)
| ConditionalExpression (test consequent alternate : node)
| OtherNode (type : string).

Record Program : Type := { body : node }.

Definition literal_value (l : literal) : Value :=
  match l with
  | LNumber n => VNum n
  | LString s => VStr s
  | LBoolean b => VBool b
  | LNull => VNull
  end.

(** [(property as Identifier).name]; a node without a [name] gives
    [undefined], which as a key reads "undefined". *)
Definition identifier_name (property : node) : string :=
  match property with
  | Identifier name => name
  | _ => "undefined"
  end.

(** ** The evaluator's store and its monad *)

Inductive event : Type :=
| Enter (n : node)
| Invoke (callee : string) (args : list Value) (result : completion Value)
| Convert (address : positive) (result : completion primitive).

Record store (W : Type) : Type := { host : W; trace : list event }.
Arguments host {W} _.
Arguments trace {W} _.

Definition record {W} (ev : event) (s : store W) : store W :=
  {| host := host s; trace := trace s ++ [ev] |}.

(** The state as one evaluation reads it: the own properties of
    [evaluationState.context] and [evaluationState.functions], and what each
    of the two objects inherits. *)
Record InterpreterState (W : Type) : Type := {
  context : gmap string Value;
  functions : gmap string (host_function W);
  context_prototype : gmap string Value;
  functions_prototype : gmap string (host_function W)
}.
Arguments context {W} _.
Arguments functions {W} _.
Arguments context_prototype {W} _.
Arguments functions_prototype {W} _.

(** [context[name]] and [functions[name]]: the own property, else the
    inherited member. *)
Definition lookup_variable {W} (st : InterpreterState W) (name : string)
    : option Value :=
  match context st !! name with
  | Some v => Some v
  | None => context_prototype st !! name
  end.

Definition lookup_function {W} (st : InterpreterState W) (name : string)
    : option (host_function W) :=
  match functions st !! name with
  | Some f => Some f
  | None => functions_prototype st !! name
  end.

Definition M (W A : Type) : Type := store W -> completion A * store W.

Definition ret {W A} (a : A) : M W A := fun s => (Normal a, s).

Definition throw {W A} (e : thrown) : M W A := fun s => (Throw e, s).

Definition bind {W A C} (m : M W A) (k : A -> M W C) : M W C :=
  fun s =>
    match m s with
    | (Normal a, s') => k a s'
    | (Throw e, s') => (Throw e, s')
    end.

Notation "'let*' x ':=' m 'in' k" := (bind m (fun x => k))
  (at level 10, x name, m at level 100, k at level 200).

(** The [catch] clause of [evaluateNode]. *)
Definition rethrow (e : thrown) : thrown :=
  match e with
  | ExpressionError message => ExpressionError ("Evaluation error: " +:+ message)
  | HostError payload => HostError payload
  end.

Definition try_catch {W A} (m : M W A) : M W A :=
  fun s =>
    match m s with
    | (Throw e, s') => (Throw (rethrow e), s')
    | r => r
    end.

(** [func(...args)], recorded in the trace. *)
Definition invoke {W} (callee : string) (func : host_function W)
    (args : list Value) : M W Value :=
  fun s =>
    let '(result, w) := func args (host s) in
    (result, record (Invoke callee args result) {| host := w; trace := trace s |}).

(** ** Conversions *)

Section Conversions.
Context {W : Type}.
Variable B : Builtins W.

(** [Number::toString]; integers below 2^53 print as their decimal digits. *)
Definition number_to_string (x : float) : string :=
  if PrimFloat.is_nan x then "NaN"
  else if PrimFloat.is_zero x then "0"
  else if PrimFloat.is_infinity x
       then (if PrimFloat.ltb x 0 then "-Infinity" else "Infinity")
       else match safe_integer x with
            | Some z => NilZero.string_of_int (Z.to_int z)
            | None => fraction_to_string B x
            end.

(** [ToString] and [ToNumber] of a value that is not an object. *)
Definition primitive_to_string (p : primitive) : string :=
  match p with
  | PUndefined => "undefined"
  | PNull => "null"
  | PBool true => "true"
  | PBool false => "false"
  | PNum n => number_to_string n
  | PStr s => s
  end.

Definition primitive_to_number (p : primitive) : float :=
  match p with
  | PUndefined => nan
  | PNull => 0
  | PBool true => 1
  | PBool false => 0
  | PNum n => n
  | PStr s => string_to_number B s
  end.

(** [ToPrimitive] of an object: the object's own methods run, and an answer
    that is an object again is a TypeError.  Recorded in the trace. *)
Definition convert (preferred : hint) (address : positive)
    (fields : gmap string Value) : M W primitive :=
  fun s =>
    let '(answer, w) := object_to_primitive B preferred address fields (host s) in
    let result :=
      match answer with
      | Normal v =>
          match as_primitive v with
          | Some p => Normal p
          | None => Throw (HostError (type_error B))
          end
      | Throw e => Throw e
      end in
    (result, record (Convert address result) {| host := w; trace := trace s |}).

Definition to_primitive (preferred : hint) (v : Value) : M W primitive :=
  match v with
  | VUndefined => ret PUndefined
  | VNull => ret PNull
  | VBool b => ret (PBool b)
  | VNum n => ret (PNum n)
  | VStr s => ret (PStr s)
  | VObj address fields => convert preferred address fields
  end.

(** [String(v)], also what a template literal and a property key apply. *)
Definition to_string (v : Value) : M W string :=
  let* p := to_primitive HintString v in
  ret (primitive_to_string p).

(** [ToNumber], what the arithmetic operators apply to each operand. *)
Definition to_number (v : Value) : M W float :=
  let* p := to_primitive HintNumber v in
  ret (primitive_to_number p).

(** The relational operators: both operands are made primitive, the left
    one first; two strings compare as strings, anything else as numbers. *)
Definition compare_with (on_strings : string -> string -> bool)
    (on_numbers : float -> float -> bool) (a b : Value) : M W bool :=
  let* pa := to_primitive HintNumber a in
  let* pb := to_primitive HintNumber b in
  ret (match pa, pb with
       | PStr x, PStr y => on_strings x y
       | _, _ => on_numbers (primitive_to_number pa) (primitive_to_number pb)
       end).

(** [object[key]] for a value that is neither [null] nor [undefined]: the
    own property, else what the prototype chain gives, else [undefined]. *)
Definition get_member (object : Value) (key : string) : Value :=
  match object with
  | VObj _ fields =>
      match fields !! key with
      | Some v => v
      | None => default VUndefined (inherited_member B object key)
      end
  | _ => default VUndefined (inherited_member B object key)
  end.
End Conversions.

(** ** The evaluator *)

Section Evaluator.
Context {W : Type}.
Variable B : Builtins W.
Variable evaluationState : InterpreterState W.

Definition evaluateLiteral (value : literal) : M W Value :=
  ret (literal_value value).

Definition evaluateIdentifier (name : string) : M W Value :=
  if negb (bool_decide (is_Some (lookup_variable evaluationState name)))
  then throw (ExpressionError ("Undefined variable: " +:+ name))
  else ret (default VUndefined (lookup_variable evaluationState name)).

Section Dispatch.
Variable evaluateNode : node -> M W Value.

Definition evaluateMemberExpression (object property : node)
    (computed : bool) : M W Value :=
  let* obj := evaluateNode object in
  if is_nullish obj
  then throw (ExpressionError "Cannot access property of null or undefined")
  else
    let* key :=
      (if computed
       then let* p := evaluateNode property in to_string B p
       else ret (identifier_name property)) in
    ret (get_member B obj key).

(** [node.arguments.map((arg) => evaluateNode(arg))] *)
Fixpoint evaluateArguments (args : list node) : M W (list Value) :=
  match args with
  | [] => ret []
  | arg :: rest =>
      let* v := evaluateNode arg in
      let* vs := evaluateArguments rest in
      ret (v :: vs)
  end.

Definition evaluateCallExpression (callee : string)
    (arguments : list node) : M W Value :=
  match lookup_function evaluationState callee with
  | None => throw (ExpressionError ("Undefined function: " +:+ callee))
  | Some func =>
      let* args := evaluateArguments arguments in
      invoke callee func args
  end.

(** [(left as number) op (right as number)] *)
Definition arithmetic (op : float -> float -> float) (left right : Value)
    : M W Value :=
  let* x := to_number B left in
  let* y := to_number B right in
  ret (VNum (op x y)).

Definition relational (on_strings : string -> string -> bool)
    (on_numbers : float -> float -> bool) (left right : Value) : M W Value :=
  let* answer := compare_with B on_strings on_numbers left right in
  ret (VBool answer).

Definition applyBinary (operator : string) (left right : Value)
    : M W Value :=
  if String.eqb operator "+" then
    match left, right with
    | VNum x, VNum y => ret (VNum (x + y)%float)
    | _, _ =>
        let* l := to_string B left in
        let* r := to_string B right in
        ret (VStr (l +:+ r))
    end
  else if String.eqb operator "-" then arithmetic PrimFloat.sub left right
  else if String.eqb operator "*" then arithmetic PrimFloat.mul left right
  else if String.eqb operator "/" then arithmetic PrimFloat.div left right
  else if String.eqb operator "%" then arithmetic (remainder B) left right
  else if String.eqb operator "===" then
    ret (VBool (strict_equal left right))
  else if String.eqb operator "!==" then
    ret (VBool (negb (strict_equal left right)))
  else if String.eqb operator ">" then
    relational (fun x y => string_less B y x) (fun x y => PrimFloat.ltb y x)
      left right
  else if String.eqb operator ">=" then
    relational (fun x y => negb (string_less B x y))
      (fun x y => PrimFloat.leb y x) left right
  else if String.eqb operator "<" then
    relational (string_less B) PrimFloat.ltb left right
  else if String.eqb operator "<=" then
    relational (fun x y => negb (string_less B y x)) PrimFloat.leb left right
  else if String.eqb operator "&&" then
    ret (if truthy left then right else left)
  else if String.eqb operator "||" then
    ret (if truthy left then left else right)
  else throw (ExpressionError ("Unknown operator: " +:+ operator)).

Definition evaluateBinaryExpression (operator : string)
    (left right : node) : M W Value :=
  let* l := evaluateNode left in
  let* r := evaluateNode right in
  applyBinary operator l r.

Definition evaluateUnaryExpression (operator : string) (prefix : bool)
    (argument : node) : M W Value :=
  let* arg := evaluateNode argument in
  if prefix then
    if String.eqb operator "!" then ret (VBool (negb (truthy arg)))
    else if String.eqb operator "-" then
      match arg with
      | VNum n => ret (VNum (- n)%float)
      | _ =>
          let* text := to_string B arg in
          throw (ExpressionError
                   ("Cannot apply unary - to non-number: " +:+ text))
      end
    else throw (ExpressionError ("Unknown operator: " +:+ operator))
  else
    throw (ExpressionError
             ("Postfix operators are not supported: " +:+ operator)).

Definition evaluateConditionalExpression (test consequent alternate : node)
    : M W Value :=
  let* t := evaluateNode test in
  if truthy t then evaluateNode consequent else evaluateNode alternate.
End Dispatch.

Fixpoint evaluateNode (n : node) (s : store W) {struct n}
    : completion Value * store W :=
  try_catch
    (match n with
     | Literal value => evaluateLiteral value
     | Identifier name => evaluateIdentifier name
     | MemberExpression object property computed =>
         evaluateMemberExpression evaluateNode object property computed
     | CallExpression callee arguments =>
         evaluateCallExpression evaluateNode callee arguments
     | BinaryExpression operator lhs rhs =>
         evaluateBinaryExpression evaluateNode operator lhs rhs
     | UnaryExpression operator prefix argument =>
         evaluateUnaryExpression evaluateNode operator prefix argument
     | ConditionalExpression test consequent alternate =>
         evaluateConditionalExpression evaluateNode test consequent alternate
     | OtherNode type =>
         throw (ExpressionError ("Unsupported node type: " +:+ type))
     end)
    (record (Enter n) s).
End Evaluator.

(** ** The state objects

    [InterpreterState] objects, context objects and function tables are
    JavaScript objects held by reference.  The store maps an address to the
    object found there; an object literal allocates a fresh address and never
    writes to an existing one.  A context object and a function table carry
    their own properties and what they inherit. *)

Abbreviation loc := positive.

Inductive object (W : Type) : Type :=
| ContextObject (entries inherited : gmap string Value)
| FunctionsObject (entries inherited : gmap string (host_function W))
| StateObject (context functions : loc).
Arguments ContextObject {W} entries inherited.
Arguments FunctionsObject {W} entries inherited.
Arguments StateObject {W} context functions.

Section StateObjects.
Context {W : Type}.
Variable B : Builtins W.
Abbreviation heap := (gmap positive (object W)).

Definition alloc (o : object W) (h : heap) : loc * heap :=
  let l := fresh (dom h) in (l, <[l := o]> h).

Definition read_state (h : heap) (l : loc) : option (loc * loc) :=
  match h !! l with
  | Some (StateObject c f) => Some (c, f)
  | _ => None
  end.

(** The own properties of a context object, and what it inherits. *)
Definition read_context (h : heap) (l : loc) : option (gmap string Value) :=
  match h !! l with
  | Some (ContextObject entries _) => Some entries
  | _ => None
  end.

Definition read_context_prototype (h : heap) (l : loc)
    : option (gmap string Value) :=
  match h !! l with
  | Some (ContextObject _ inherited) => Some inherited
  | _ => None
  end.

Definition read_functions (h : heap) (l : loc)
    : option (gmap string (host_function W)) :=
  match h !! l with
  | Some (FunctionsObject entries _) => Some entries
  | _ => None
  end.

Definition read_functions_prototype (h : heap) (l : loc)
    : option (gmap string (host_function W)) :=
  match h !! l with
  | Some (FunctionsObject _ inherited) => Some inherited
  | _ => None
  end.

(** What a reference to a state object denotes in a store. *)
Definition view (h : heap) (state : loc) : option (InterpreterState W) :=
  '(c, f) ← read_state h state;
  ctx ← read_context h c;
  ctx_inherited ← read_context_prototype h c;
  fns ← read_functions h f;
  fns_inherited ← read_functions_prototype h f;
  Some {| context := ctx; functions := fns;
          context_prototype := ctx_inherited;
          functions_prototype := fns_inherited |}.

(** [createInterpreterState(context = {}, functions = {})] *)
Definition createInterpreterState (context functions : option loc)
    (h : heap) : loc * heap :=
  let '(c, h1) :=
    match context with
    | Some c => (c, h)
    | None => alloc (ContextObject ∅ (object_prototype B)) h
    end in
  let '(f, h2) :=
    match functions with
    | Some f => (f, h1)
    | None => alloc (FunctionsObject ∅ (object_prototype_call B)) h1
    end in
  alloc (StateObject c f) h2.

(** [{ ...state, functions: { ...state.functions, [name]: fn } }]; [None]
    only when [state] does not refer to a state object. *)
Definition setFunction (state : loc) (name : string) (fn : host_function W)
    (h : heap) : option (loc * heap) :=
  '(c, f) ← read_state h state;
  table ← read_functions h f;
  let '(f', h1) :=
    alloc (FunctionsObject (<[name := fn]> table) (object_prototype_call B)) h in
  Some (alloc (StateObject c f') h1).

(** [evaluate(ast, state, context?)]: the effective state is built first,
    then [ast.body] is evaluated against it.  The result is [None] only when
    [state] or [context] does not refer to an object of its type. *)
Definition evaluate (ast : Program) (state : loc)
    (context : option loc) (h : heap) (w : W)
    : option (completion Value * store W * heap) :=
  '(evaluationState, h') ←
    match context with
    | None => Some (state, h)
    | Some override =>
        '(c, f) ← read_state h state;
        base ← read_context h c;
        over ← read_context h override;
        let '(c', h1) :=
          alloc (ContextObject (over ∪ base) (object_prototype B)) h in
        Some (alloc (StateObject c' f) h1)
    end;
  st ← view h' evaluationState;
  Some (evaluateNode B st (body ast) {| host := w; trace := [] |}, h').
End StateObjects.

(** ** A host to run examples on

    The instance knows two of the members of [Object.prototype]; an object
    at address 9 has no prototype and no method of its own, every other
    object is an ordinary one with the default [toString].  Strings compare
    by their bytes, which is the order of the code units on ASCII.  The
    examples do not reach the remaining parameters, which answer with
    constants. *)

Definition sample_prototype : gmap string Value :=
  <["toString" := VObj 50 ∅]> (<["constructor" := VObj 51 ∅]> ∅).

Definition sample_type_error : Value :=
  VStr "TypeError: Cannot convert object to primitive value".

Definition sample_builtins : Builtins nat := {|
  fraction_to_string := fun _ => "NaN";
  string_to_number := fun _ => nan;
  remainder := fun _ _ => nan;
  string_less := String.ltb;
  object_to_primitive := fun _ address _ w =>
    if Pos.eqb address 9
    then (Throw (HostError sample_type_error), w)
    else (Normal (VStr "[object Object]"), w);
  type_error := sample_type_error;
  inherited_member := fun v key =>
    match v with
    | VObj address _ =>
        if Pos.eqb address 9 then None else sample_prototype !! key
    | _ => None
    end;
  object_prototype := sample_prototype;
  object_prototype_call :=
    <["toString" := fun _ w => (Normal (VStr "[object Undefined]"), w)]>
      (<["constructor" := fun _ w => (Normal (VObj 52 ∅), w)]> ∅)
|}.

(** A host function that counts its invocations in the host's world. *)
Definition count_calls : host_function nat :=
  fun _ w => (Normal (VBool true), S w).

(** A host function that throws an error of the host's own. *)
Definition host_failure : host_function nat :=
  fun _ w => (Throw (HostError (VStr "host failure")), w).

(** A host function that throws an [ExpressionError]. *)
Definition rejecting : host_function nat :=
  fun _ w => (Throw (ExpressionError "rejected"), w).

(** A state whose context and function table are ordinary objects. *)
Definition sample_state : InterpreterState nat := {|
  context :=
    <["data" := VObj 1 (<["value" := VNum 42]> ∅)]>
      (<["nothing" := VNull]> (<["bare" := VObj 9 ∅]> ∅));
  functions :=
    <["count" := count_calls]>
      (<["fail" := host_failure]> (<["reject" := rejecting]> ∅));
  context_prototype := sample_prototype;
  functions_prototype := object_prototype_call sample_builtins
|}.

Definition sample_store : store nat := {| host := 0; trace := [] |}.

(** A store holding [sample_state] at address 3 and an override context at
    address 4. *)
Definition sample_heap : gmap positive (object nat) :=
  <[4%positive := ContextObject (<["nothing" := VNum 7]> ∅) sample_prototype]>
    (<[3%positive := StateObject 1 2]>
       (<[2%positive :=
            FunctionsObject (functions sample_state)
              (functions_prototype sample_state)]>
          (<[1%positive :=
               ContextObject (context sample_state)
                 (context_prototype sample_state)]> ∅))).

(** [sample_state] with one more variable and one function fewer. *)
Definition other_state : InterpreterState nat := {|
  context := <["unused" := VNum 0]> (context sample_state);
  functions := delete "count" (functions sample_state);
  context_prototype := context_prototype sample_state;
  functions_prototype := functions_prototype sample_state
|}.

(** [sample_heap] with, at address 7, a state whose context and function
    table have the properties of [sample_state] and no prototype, as
    [Object.create(null)] builds them. *)
Definition bare_heap : gmap positive (object nat) :=
  <[7%positive := StateObject 5 6]>
    (<[6%positive := FunctionsObject (functions sample_state) ∅]>
       (<[5%positive := ContextObject (context sample_state) ∅]>
          sample_heap)).

(** ** The error taxonomy

    The evaluator raises a single class, [ExpressionError]; the kinds of the
    specification are told apart by the message the source builds. *)

Definition UndefinedVariable (name : string) : thrown :=
  ExpressionError ("Undefined variable: " +:+ name).

Definition NullPropertyAccess : thrown :=
  ExpressionError "Cannot access property of null or undefined".

Definition UndefinedFunction (callee : string) : thrown :=
  ExpressionError ("Undefined function: " +:+ callee).

(** [text] is the argument as the message shows it. *)
Definition NonNumericNegation (text : string) : thrown :=
  ExpressionError ("Cannot apply unary - to non-number: " +:+ text).


Definition UnknownOperator (operator : string) : thrown :=
  ExpressionError ("Unknown operator: " +:+ operator).


(** An error of kind [e] as it reaches the caller from [depth] dispatch
    frames below: re-wrapped once per frame. *)
Definition unwound (depth : nat) (e : thrown) : thrown :=
  Nat.iter depth rethrow e.

(** The value [&&] and [||] select. *)
Definition logical (operator : string) (left right : Value) : Value :=
  if String.eqb operator "&&"
  then (if truthy left then right else left)
  else (if truthy left then left else right).

(** The store a node's evaluation starts its children from. *)
Definition entered {W} (n : node) (s : store W) : store W :=
  record (Enter n) s.

(** ** Where a child is evaluated

    [evaluates_child B st n s c sc]: the evaluation of [n] from [s] evaluates
    its child [c], from the store [sc]. *)
Inductive evaluates_child {W} (B : Builtins W) (st : InterpreterState W)
    : node -> store W -> node -> store W -> Prop :=
| child_object object property computed s :
    evaluates_child B st (MemberExpression object property computed) s
      object (entered (MemberExpression object property computed) s)
| child_property object property s obj s1 :
    evaluateNode B st object
      (entered (MemberExpression object property true) s) = (Normal obj, s1) ->
    is_nullish obj = false ->
    evaluates_child B st (MemberExpression object property true) s property s1
| child_argument callee func before argument after s values s1 :
    lookup_function st callee = Some func ->
    evaluateArguments (evaluateNode B st) before
      (entered (CallExpression callee (before ++ argument :: after)) s)
      = (Normal values, s1) ->
    evaluates_child B st
      (CallExpression callee (before ++ argument :: after)) s argument s1
| child_left operator lhs rhs s :
    evaluates_child B st (BinaryExpression operator lhs rhs) s
      lhs (entered (BinaryExpression operator lhs rhs) s)
| child_right operator lhs rhs s a s1 :
    evaluateNode B st lhs (entered (BinaryExpression operator lhs rhs) s)
      = (Normal a, s1) ->
    evaluates_child B st (BinaryExpression operator lhs rhs) s rhs s1
| child_operand operator pre argument s :
    evaluates_child B st (UnaryExpression operator pre argument) s
      argument (entered (UnaryExpression operator pre argument) s)
| child_test test consequent alternate s :
    evaluates_child B st (ConditionalExpression test consequent alternate) s
      test (entered (ConditionalExpression test consequent alternate) s)
| child_branch test consequent alternate s t s1 :
    evaluateNode B st test
      (entered (ConditionalExpression test consequent alternate) s)
      = (Normal t, s1) ->
    evaluates_child B st (ConditionalExpression test consequent alternate) s
      (if truthy t then consequent else alternate) s1.

(** [nested B st frames n s d sd]: the evaluation of [n] from [s] evaluates
    [d] from [sd], [frames] dispatch frames further in. *)
Inductive nested {W} (B : Builtins W) (st : InterpreterState W)
    : nat -> node -> store W -> node -> store W -> Prop :=
| nested_here n s : nested B st 0 n s n s
| nested_step frames n s c sc d sd :
    evaluates_child B st n s c sc ->
    nested B st frames c sc d sd ->
    nested B st (S frames) n s d sd.

(** The message of an [ExpressionError] after [frames] re-wrappings. *)
Definition prefixed (frames : nat) (message : string) : string :=
  Nat.iter frames (String.append "Evaluation error: ") message.

(** ** Induction on the AST, through the argument lists *)

Section NodeInduction.
Variable P : node -> Prop.
Hypothesis HLiteral : forall value, P (Literal value).
Hypothesis HIdentifier : forall name, P (Identifier name).
Hypothesis HMember : forall object property computed,
  P object -> P property -> P (MemberExpression object property computed).
Hypothesis HCall : forall callee arguments,
  Forall P arguments -> P (CallExpression callee arguments).
Hypothesis HBinary : forall operator lhs rhs,
  P lhs -> P rhs -> P (BinaryExpression operator lhs rhs).
Hypothesis HUnary : forall operator prefix argument,
  P argument -> P (UnaryExpression operator prefix argument).
Hypothesis HConditional : forall test consequent alternate,
  P test -> P consequent -> P alternate ->
  P (ConditionalExpression test consequent alternate).
Hypothesis HOther : forall type, P (OtherNode type).

Fixpoint node_induction (n : node) : P n :=
  match n with
  | Literal value => HLiteral value
  | Identifier name => HIdentifier name
  | MemberExpression object property computed =>
      HMember object property computed
        (node_induction object) (node_induction property)
  | CallExpression callee arguments =>
      HCall callee arguments
        ((fix all (l : list node) : Forall P l :=
            match l return Forall P l with
            | [] => List.Forall_nil P
            | a :: l' => List.Forall_cons P a l' (node_induction a) (all l')
            end) arguments)
  | BinaryExpression operator lhs rhs =>
      HBinary operator lhs rhs (node_induction lhs) (node_induction rhs)
  | UnaryExpression operator prefix argument =>
      HUnary operator prefix argument (node_induction argument)
  | ConditionalExpression test consequent alternate =>
      HConditional test consequent alternate
        (node_induction test) (node_induction consequent)
        (node_induction alternate)
  | OtherNode type => HOther type
  end.
End NodeInduction.

(** ** What an evaluation adds to the trace *)

(** The host code an event records threw [e]. *)
Definition threw (ev : event) (e : thrown) : Prop :=
  match ev with
  | Enter _ => False
  | Invoke _ _ result => result = Throw e
  | Convert _ result => result = Throw e
  end.

(** [propagates frames s res]: the outcome [res] extends the trace of [s],
    and host code recorded as throwing [e] makes the outcome that throw,
    re-wrapped by at least [frames] dispatch frames. *)
Definition propagates {W A} (frames : nat) (s : store W)
    (res : completion A * store W) : Prop :=
  exists evs : list event,
    trace (snd res) = trace s ++ evs /\
    (forall ev e,
        In ev evs -> threw ev e ->
        exists k, frames <= k /\ fst res = Throw (unwound k e)).

(** [erases_trace m]: apart from the trace it writes, [m] does not depend on
    the trace it starts from. *)
Definition erases_trace {W A} (m : M W A) : Prop :=
  forall s1 s2 : store W,
    host s1 = host s2 ->
    fst (m s1) = fst (m s2) /\ host (snd (m s1)) = host (snd (m s2)).

(** ** Measures of an AST *)

(** The names [evaluateIdentifier] can be asked for while [n] is evaluated;
    the property of a member access that is not computed is not one. *)
Fixpoint identifiers (n : node) : list string :=
  match n with
  | Literal _ => []
  | Identifier name => [name]
  | MemberExpression object property computed =>
      identifiers object ++ (if computed then identifiers property else [])
  | CallExpression _ arguments => flat_map identifiers arguments
  | BinaryExpression _ lhs rhs => identifiers lhs ++ identifiers rhs
  | UnaryExpression _ _ argument => identifiers argument
  | ConditionalExpression test consequent alternate =>
      identifiers test ++ identifiers consequent ++ identifiers alternate
  | OtherNode _ => []
  end.

(** The callees of the call expressions of [n]. *)
Fixpoint callees (n : node) : list string :=
  match n with
  | Literal _ | Identifier _ | OtherNode _ => []
  | MemberExpression object property computed =>
      callees object ++ (if computed then callees property else [])
  | CallExpression callee arguments => callee :: flat_map callees arguments
  | BinaryExpression _ lhs rhs => callees lhs ++ callees rhs
  | UnaryExpression _ _ argument => callees argument
  | ConditionalExpression test consequent alternate =>
      callees test ++ callees consequent ++ callees alternate
  end.

(** The number of nodes of [n], and its height. *)
Fixpoint size (n : node) : nat :=
  match n with
  | Literal _ | Identifier _ | OtherNode _ => 1
  | MemberExpression object property _ => S (size object + size property)
  | CallExpression _ arguments => S (list_sum (map size arguments))
  | BinaryExpression _ lhs rhs => S (size lhs + size rhs)
  | UnaryExpression _ _ argument => S (size argument)
  | ConditionalExpression test consequent alternate =>
      S (size test + size consequent + size alternate)
  end.


(** The entries, the invocations and the conversions of a trace. *)
Fixpoint entries (evs : list event) : nat :=
  match evs with
  | [] => 0
  | Enter _ :: rest => S (entries rest)
  | _ :: rest => entries rest
  end.

Fixpoint invocations (evs : list event) : nat :=
  match evs with
  | [] => 0
  | Invoke _ _ _ :: rest => S (invocations rest)
  | _ :: rest => invocations rest
  end.

Fixpoint conversions (evs : list event) : nat :=
  match evs with
  | [] => 0
  | Convert _ _ :: rest => S (conversions rest)
  | _ :: rest => conversions rest
  end.




(** [quiet s res]: from [s] to [res] the trace gained no invocation, and the
    host's world is untouched unless the trace gained a conversion. *)
Definition quiet {W A} (s : store W) (res : completion A * store W) : Prop :=
  exists evs,
    trace (snd res) = trace s ++ evs /\
    invocations evs = 0 /\
    (conversions evs = 0 -> host (snd res) = host s).

(** [bounded s res e i]: from [s] to [res] the trace gained at most [e]
    entries and [i] invocations. *)
Definition bounded {W A} (s : store W) (res : completion A * store W)
    (e i : nat) : Prop :=
  exists evs,
    trace (snd res) = trace s ++ evs /\ entries evs <= e /\ invocations evs <= i.


(** * Properties *)

(** ** The monad and the dispatch *)

Section Monad.
Context {W : Type}.

Lemma bind_normal {A C} (m : M W A) (k : A -> M W C) s a s1 :
  m s = (Normal a, s1) -> bind m k s = k a s1.
Proof. unfold bind. intros ->. reflexivity. Qed.

Lemma bind_throw {A C} (m : M W A) (k : A -> M W C) s e s1 :
  m s = (Throw e, s1) -> bind m k s = (Throw e, s1).
Proof. unfold bind. intros ->. reflexivity. Qed.

Lemma try_catch_normal {A} (m : M W A) s a s1 :
  m s = (Normal a, s1) -> try_catch m s = (Normal a, s1).
Proof. unfold try_catch. intros ->. reflexivity. Qed.

Lemma try_catch_throw {A} (m : M W A) s e s1 :
  m s = (Throw e, s1) -> try_catch m s = (Throw (rethrow e), s1).
Proof. unfold try_catch. intros ->. reflexivity. Qed.

Lemma unwound_host (k : nat) (payload : Value) :
  unwound k (HostError payload) = HostError payload.
Proof.
  induction k as [|k IH]; [reflexivity|].
  change (rethrow (unwound k (HostError payload)) = HostError payload).
  now rewrite IH.
Qed.

Lemma unwound_expression (depth : nat) (message : string) :
  unwound depth (ExpressionError message)
    = ExpressionError (prefixed depth message).
Proof.
  induction depth as [|depth IH]; [reflexivity|].
  change (rethrow (unwound depth (ExpressionError message))
          = ExpressionError ("Evaluation error: " +:+ prefixed depth message)).
  now rewrite IH.
Qed.

Lemma unwound_rethrow (k : nat) (e : thrown) :
  unwound k (rethrow e) = unwound (S k) e.
Proof.
  induction k as [|k IH]; [reflexivity|].
  change (rethrow (unwound k (rethrow e)) = rethrow (unwound (S k) e)).
  now rewrite IH.
Qed.

(** A value that is not an object converts without running anything. *)
Lemma to_primitive_primitive (B : Builtins W) (preferred : hint) (v : Value)
    (p : primitive) (s : store W) :
  as_primitive v = Some p -> to_primitive B preferred v s = (Normal p, s).
Proof. destruct v; cbn; intros H; try discriminate; now injection H as <-. Qed.

Lemma to_string_primitive (B : Builtins W) (v : Value) (p : primitive)
    (s : store W) :
  as_primitive v = Some p ->
  to_string B v s = (Normal (primitive_to_string B p), s).
Proof.
  intros H. unfold to_string.
  now rewrite (bind_normal _ _ _ _ _ (to_primitive_primitive B _ v p s H)).
Qed.

End Monad.

Section Dispatch.
Context {W : Type}.
Variable B : Builtins W.
Variable st : InterpreterState W.

Lemma evaluateNode_unfold (n : node) (s : store W) :
  evaluateNode B st n s =
    try_catch
      (match n with
       | Literal value => evaluateLiteral value
       | Identifier name => evaluateIdentifier st name
       | MemberExpression object property computed =>
           evaluateMemberExpression B (evaluateNode B st) object property computed
       | CallExpression callee arguments =>
           evaluateCallExpression st (evaluateNode B st) callee arguments
       | BinaryExpression operator lhs rhs =>
           evaluateBinaryExpression B (evaluateNode B st) operator lhs rhs
       | UnaryExpression operator prefix argument =>
           evaluateUnaryExpression B (evaluateNode B st) operator prefix argument
       | ConditionalExpression test consequent alternate =>
           evaluateConditionalExpression (evaluateNode B st) test consequent alternate
       | OtherNode type =>
           throw (ExpressionError ("Unsupported node type: " +:+ type))
       end)
      (entered n s).
Proof. destruct n; reflexivity. Qed.

Lemma evaluateArguments_app (f : node -> M W Value) (pre post : list node)
    (s : store W) :
  evaluateArguments f (pre ++ post) s =
    bind (evaluateArguments f pre)
      (fun vs => bind (evaluateArguments f post) (fun ws => ret (vs ++ ws))) s.
Proof.
  revert s. induction pre as [|n pre IH]; intros s; cbn.
  - unfold bind, ret. now destruct (evaluateArguments f post s) as [[ws|e] s1].
  - unfold bind in *. destruct (f n s) as [[v|e] s1] eqn:E; cbn; [|reflexivity].
    rewrite IH. destruct (evaluateArguments f pre s1) as [[vs|e] s2]; cbn;
      [|reflexivity].
    now destruct (evaluateArguments f post s2) as [[ws|e] s3].
Qed.

Lemma evaluateArguments_length (f : node -> M W Value)
    (arguments : list node) :
  forall s values s1,
    evaluateArguments f arguments s = (Normal values, s1) ->
    length values = length arguments.
Proof.
  induction arguments as [|n rest IH]; intros s values s1; cbn.
  - unfold ret. intros H. now injection H as <- _.
  - unfold bind. destruct (f n s) as [[v|e] s2]; [|discriminate].
    destruct (evaluateArguments f rest s2) as [[vs|e] s3] eqn:E; [|discriminate].
    unfold ret. intros H. injection H as <- _. cbn. f_equal. eauto.
Qed.

(** The failure of a child fails its parent, re-wrapped once. *)
Lemma evaluates_child_throw (n c : node) (s sc s' : store W) (e : thrown) :
  evaluates_child B st n s c sc ->
  evaluateNode B st c sc = (Throw e, s') ->
  evaluateNode B st n s = (Throw (rethrow e), s').
Proof.
  intros Hc He. rewrite evaluateNode_unfold. apply try_catch_throw.
  destruct Hc as [object property computed s
                 | object property s obj s1 Ho Hn
                 | callee func before argument after s values s1 Hf Hb
                 | operator lhs rhs s
                 | operator lhs rhs s a s1 Hl
                 | operator pre argument s
                 | test consequent alternate s
                 | test consequent alternate s t s1 Ht].
  - unfold evaluateMemberExpression. now apply bind_throw.
  - unfold evaluateMemberExpression.
    rewrite (bind_normal _ _ _ _ _ Ho), Hn.
    apply bind_throw. now apply bind_throw.
  - unfold evaluateCallExpression. rewrite Hf. apply bind_throw.
    rewrite evaluateArguments_app. rewrite (bind_normal _ _ _ _ _ Hb).
    apply bind_throw. cbn. now apply bind_throw.
  - unfold evaluateBinaryExpression. now apply bind_throw.
  - unfold evaluateBinaryExpression. rewrite (bind_normal _ _ _ _ _ Hl).
    now apply bind_throw.
  - unfold evaluateUnaryExpression. now apply bind_throw.
  - unfold evaluateConditionalExpression. now apply bind_throw.
  - unfold evaluateConditionalExpression. rewrite (bind_normal _ _ _ _ _ Ht).
    now destruct (truthy t).
Qed.

(** The failure of a node [frames] frames in fails the root, re-wrapped once
    per frame. *)
Lemma nested_throw (frames : nat) (n d : node) (s sd s' : store W)
    (e : thrown) :
  nested B st frames n s d sd ->
  evaluateNode B st d sd = (Throw e, s') ->
  evaluateNode B st n s = (Throw (unwound frames e), s').
Proof.
  induction 1 as [n s | frames n s c sc d sd Hc _ IH]; intros He.
  - exact He.
  - apply (evaluates_child_throw n c s sc s' _ Hc), IH, He.
Qed.

(** A call whose function throws. *)
Lemma call_throw (callee : string) (arguments : list node)
    (func : host_function W) (values : list Value) (s s1 : store W)
    (e : thrown) (w : W) :
  lookup_function st callee = Some func ->
  evaluateArguments (evaluateNode B st) arguments
    (entered (CallExpression callee arguments) s) = (Normal values, s1) ->
  func values (host s1) = (Throw e, w) ->
  evaluateNode B st (CallExpression callee arguments) s =
    (Throw (rethrow e),
     {| host := w;
        trace := trace s1 ++ [Invoke callee values (Throw e)] |}).
Proof.
  intros Hf Ha He. rewrite evaluateNode_unfold. apply try_catch_throw.
  unfold evaluateCallExpression. rewrite Hf, (bind_normal _ _ _ _ _ Ha).
  unfold invoke. now rewrite He.
Qed.
End Dispatch.

(** ** How throws travel through the dispatch frames *)

Section Propagation.
Context {W : Type}.
Variable B : Builtins W.
Variable st : InterpreterState W.

Lemma propagates_weaken {A} (f f' : nat) (s : store W)
    (res : completion A * store W) :
  f' <= f -> propagates f s res -> propagates f' s res.
Proof.
  intros Hle (evs & Ht & Hin). exists evs. split; trivial.
  intros ev e Hi He. destruct (Hin ev e Hi He) as (k & Hk & Hr).
  exists k. split; [lia | exact Hr].
Qed.

Lemma propagates_ret {A} (f : nat) (a : A) (s : store W) :
  propagates f s (ret a s).
Proof.
  exists []. cbn. rewrite app_nil_r. split; trivial. intros ? ? [].
Qed.

Lemma propagates_throw {A} (f : nat) (message : string) (s : store W) :
  propagates (A:=A) f s (throw (ExpressionError message) s).
Proof.
  exists []. cbn. rewrite app_nil_r. split; trivial. intros ? ? [].
Qed.

Lemma propagates_bind {A C} (f : nat) (m : M W A) (k : A -> M W C)
    (s : store W) :
  propagates f s (m s) ->
  (forall a s1, propagates f s1 (k a s1)) ->
  propagates f s (bind m k s).
Proof.
  intros (evs & Ht & Hin) Hk. unfold bind.
  destruct (m s) as [[a|e] s1] eqn:E; cbn in *.
  - destruct (Hk a s1) as (evs2 & Ht2 & Hin2).
    exists (evs ++ evs2). rewrite Ht2, Ht, app_assoc. split; trivial.
    intros ev e Hi He. apply in_app_iff in Hi as [Hi|Hi].
    + destruct (Hin ev e Hi He) as (? & _ & ?). discriminate.
    + eauto.
  - exists evs. split; trivial.
    intros ev e0 Hi He. destruct (Hin ev e0 Hi He) as (k0 & Hk0 & Hr).
    exists k0. split; [exact Hk0|]. injection Hr as ->. reflexivity.
Qed.

Lemma propagates_try_catch {A} (f : nat) (m : M W A) (s0 s : store W) :
  propagates f s0 (m s) -> propagates (S f) s0 (try_catch m s).
Proof.
  intros (evs & Ht & Hin). unfold try_catch.
  destruct (m s) as [[a|e] s1] eqn:E; cbn in *.
  - exists evs. split; trivial.
    intros ev e Hi He. destruct (Hin ev e Hi He) as (? & _ & ?). discriminate.
  - exists evs. split; trivial.
    intros ev e' Hi He. destruct (Hin ev e' Hi He) as (k & Hk & Hr).
    exists (S k). split; [lia|]. injection Hr as ->. reflexivity.
Qed.

Lemma propagates_enter {A} (f : nat) (n : node) (s : store W)
    (res : completion A * store W) :
  propagates f (entered n s) res -> propagates f s res.
Proof.
  intros (evs & Ht & Hin). exists (Enter n :: evs).
  cbn in Ht. rewrite <- app_assoc in Ht. split; trivial.
  intros ev e [<-|Hi] He; [destruct He | eauto].
Qed.

Lemma propagates_invoke (callee : string) (func : host_function W)
    (args : list Value) (s : store W) :
  propagates 0 s (invoke callee func args s).
Proof.
  unfold invoke. destruct (func args (host s)) as [result w] eqn:E.
  exists [Invoke callee args result]. cbn. split; trivial.
  intros ev e [<-|[]] He. cbn in He. subst result.
  exists 0. split; [lia | reflexivity].
Qed.

Lemma propagates_convert (preferred : hint) (address : positive)
    (fields : gmap string Value) (s : store W) :
  propagates 0 s (convert B preferred address fields s).
Proof.
  unfold convert.
  destruct (object_to_primitive B preferred address fields (host s))
    as [answer w] eqn:E.
  eexists [Convert address _]. cbn. split; [reflexivity|].
  intros ev e [<-|[]] He. cbn in He.
  exists 0. split; [lia | exact He].
Qed.

Lemma propagates_to_primitive (preferred : hint) (v : Value) (s : store W) :
  propagates 0 s (to_primitive B preferred v s).
Proof.
  destruct v; cbn; first [apply propagates_ret | apply propagates_convert].
Qed.

Lemma propagates_to_string (v : Value) (s : store W) :
  propagates 0 s (to_string B v s).
Proof.
  unfold to_string. apply propagates_bind; [apply propagates_to_primitive|].
  intros; apply propagates_ret.
Qed.

Lemma propagates_to_number (v : Value) (s : store W) :
  propagates 0 s (to_number B v s).
Proof.
  unfold to_number. apply propagates_bind; [apply propagates_to_primitive|].
  intros; apply propagates_ret.
Qed.

Lemma propagates_arithmetic (op : float -> float -> float) (l r : Value)
    (s : store W) :
  propagates 0 s (arithmetic B op l r s).
Proof.
  unfold arithmetic. apply propagates_bind; [apply propagates_to_number|].
  intros x s1. apply propagates_bind; [apply propagates_to_number|].
  intros; apply propagates_ret.
Qed.

Lemma propagates_relational (on_strings : string -> string -> bool)
    (on_numbers : float -> float -> bool) (l r : Value) (s : store W) :
  propagates 0 s (relational B on_strings on_numbers l r s).
Proof.
  unfold relational, compare_with.
  apply propagates_bind; [|intros; apply propagates_ret].
  apply propagates_bind; [apply propagates_to_primitive|].
  intros x s1. apply propagates_bind; [apply propagates_to_primitive|].
  intros; apply propagates_ret.
Qed.

Lemma propagates_applyBinary (operator : string) (l r : Value) (s : store W) :
  propagates 0 s (applyBinary B operator l r s).
Proof.
  unfold applyBinary.
  destruct (String.eqb operator "+").
  { destruct l, r; try apply propagates_ret;
      (apply propagates_bind; [apply propagates_to_string|];
       intros x s1; apply propagates_bind; [apply propagates_to_string|];
       intros; apply propagates_ret). }
  repeat (destruct (String.eqb operator _);
          [first [apply propagates_ret | apply propagates_arithmetic
                 | apply propagates_relational]|]).
  apply propagates_throw.
Qed.

(** A child evaluated from inside a dispatch frame. *)
Lemma propagates_child (n : node) :
  (forall s, propagates 1 (entered n s) (evaluateNode B st n s)) ->
  forall s, propagates 0 s (evaluateNode B st n s).
Proof.
  intros IH s. apply (propagates_weaken 1); [lia|].
  apply (propagates_enter _ n), IH.
Qed.

Lemma propagates_arguments (arguments : list node) :
  Forall (fun n => forall s, propagates 1 (entered n s) (evaluateNode B st n s))
    arguments ->
  forall s, propagates 0 s (evaluateArguments (evaluateNode B st) arguments s).
Proof.
  induction 1 as [|n rest Hn _ IH]; intros s; cbn.
  - apply propagates_ret.
  - apply propagates_bind.
    + now apply propagates_child.
    + intros v s1. apply propagates_bind; [apply IH|].
      intros vs s2. apply propagates_ret.
Qed.

Lemma evaluateNode_propagates (n : node) :
  forall s, propagates 1 (entered n s) (evaluateNode B st n s).
Proof.
  induction n as [value | name | object property computed IHo IHp
                  | callee arguments IHargs | operator lhs rhs IHl IHr
                  | operator pre argument IHa
                  | test consequent alternate IHt IHc IHalt | type]
    using node_induction; intros s;
    rewrite evaluateNode_unfold; apply propagates_try_catch.
  - apply propagates_ret.
  - unfold evaluateIdentifier.
    destruct (negb _); [apply propagates_throw | apply propagates_ret].
  - unfold evaluateMemberExpression. apply propagates_bind.
    + now apply propagates_child.
    + intros obj s1. destruct (is_nullish obj); [apply propagates_throw|].
      apply propagates_bind; [|intros; apply propagates_ret].
      destruct computed; [|apply propagates_ret].
      apply propagates_bind; [|intros; apply propagates_to_string].
      now apply propagates_child.
  - unfold evaluateCallExpression.
    destruct (lookup_function st callee) as [func|]; [|apply propagates_throw].
    apply propagates_bind; [now apply propagates_arguments|].
    intros args s1. apply propagates_invoke.
  - unfold evaluateBinaryExpression. apply propagates_bind.
    + now apply propagates_child.
    + intros l s1. apply propagates_bind.
      * now apply propagates_child.
      * intros r s2. apply propagates_applyBinary.
  - unfold evaluateUnaryExpression. apply propagates_bind.
    + now apply propagates_child.
    + intros arg s1. destruct pre; [|apply propagates_throw].
      destruct (String.eqb operator "!"); [apply propagates_ret|].
      destruct (String.eqb operator "-"); [|apply propagates_throw].
      destruct arg; try apply propagates_ret;
        (apply propagates_bind; [apply propagates_to_string|];
         intros; apply propagates_throw).
  - unfold evaluateConditionalExpression. apply propagates_bind.
    + now apply propagates_child.
    + intros t s1. destruct (truthy t).
      * now apply propagates_child.
      * now apply propagates_child.
  - apply propagates_throw.
Qed.

(** Every evaluation starts by entering its node, and only adds to the
    trace. *)
Lemma evaluateNode_enters (n : node) (s : store W) :
  exists evs,
    trace (snd (evaluateNode B st n s)) = trace s ++ Enter n :: evs.
Proof.
  destruct (evaluateNode_propagates n s) as (evs & Ht & _).
  exists evs. rewrite Ht. cbn. now rewrite <- app_assoc.
Qed.
End Propagation.

(** ** The trace is ghost state *)

Section Ghost.
Context {W : Type}.
Variable B : Builtins W.
Variable st : InterpreterState W.

Lemma erases_ret {A} (a : A) : erases_trace (W:=W) (ret a).
Proof. intros s1 s2 H. now split. Qed.

Lemma erases_throw {A} (e : thrown) : erases_trace (W:=W) (A:=A) (throw e).
Proof. intros s1 s2 H. now split. Qed.

Lemma erases_bind {A C} (m : M W A) (k : A -> M W C) :
  erases_trace m -> (forall a, erases_trace (k a)) -> erases_trace (bind m k).
Proof.
  intros Hm Hk s1 s2 H. unfold bind. destruct (Hm s1 s2 H) as [Hr Hh].
  destruct (m s1) as [[a|e] t1], (m s2) as [[a'|e'] t2]; cbn in *;
    try discriminate.
  - injection Hr as <-. now apply Hk.
  - injection Hr as <-. now split.
Qed.

Lemma erases_try_catch {A} (m : M W A) :
  erases_trace m -> erases_trace (try_catch m).
Proof.
  intros Hm s1 s2 H. unfold try_catch. destruct (Hm s1 s2 H) as [Hr Hh].
  destruct (m s1) as [[a|e] t1], (m s2) as [[a'|e'] t2]; cbn in *;
    try discriminate; injection Hr as <-; now split.
Qed.

Lemma erases_invoke (callee : string) (func : host_function W)
    (args : list Value) :
  erases_trace (invoke callee func args).
Proof.
  intros s1 s2 H. unfold invoke. rewrite H.
  now destruct (func args (host s2)).
Qed.

Lemma erases_to_primitive (preferred : hint) (v : Value) :
  erases_trace (to_primitive B preferred v).
Proof.
  destruct v; cbn; try apply erases_ret.
  intros s1 s2 H. unfold convert. rewrite H.
  now destruct (object_to_primitive B preferred address fields (host s2)).
Qed.

Lemma erases_to_string (v : Value) : erases_trace (to_string B v).
Proof.
  apply erases_bind; [apply erases_to_primitive | intros; apply erases_ret].
Qed.

Lemma erases_to_number (v : Value) : erases_trace (to_number B v).
Proof.
  apply erases_bind; [apply erases_to_primitive | intros; apply erases_ret].
Qed.

Lemma erases_applyBinary (operator : string) (l r : Value) :
  erases_trace (applyBinary B operator l r).
Proof.
  unfold applyBinary, arithmetic, relational, compare_with.
  destruct (String.eqb operator "+").
  { destruct l, r; try apply erases_ret;
      (apply erases_bind; [apply erases_to_string|];
       intros x; apply erases_bind; [apply erases_to_string|];
       intros; apply erases_ret). }
  repeat (destruct (String.eqb operator _);
          [first [apply erases_ret
                 | apply erases_bind; [apply erases_to_number|];
                   intros x; apply erases_bind; [apply erases_to_number|];
                   intros; apply erases_ret
                 | apply erases_bind; [|intros; apply erases_ret];
                   apply erases_bind; [apply erases_to_primitive|];
                   intros x; apply erases_bind; [apply erases_to_primitive|];
                   intros; apply erases_ret]|]).
  apply erases_throw.
Qed.

Lemma erases_arguments (arguments : list node) :
  Forall (fun n => erases_trace (evaluateNode B st n)) arguments ->
  erases_trace (evaluateArguments (evaluateNode B st) arguments).
Proof.
  induction 1 as [|n rest Hn _ IH]; cbn.
  - apply erases_ret.
  - apply erases_bind; [exact Hn|]. intros v.
    apply erases_bind; [exact IH|]. intros vs. apply erases_ret.
Qed.

(** The trace is ghost state: the outcome and the host's world do not depend
    on it. *)
Lemma evaluateNode_erases_trace (n : node) :
  erases_trace (evaluateNode B st n).
Proof.
  induction n as [value | name | object property computed IHo IHp
                  | callee arguments IHargs | operator lhs rhs IHl IHr
                  | operator pre argument IHa
                  | test consequent alternate IHt IHc IHalt | type]
    using node_induction; intros s1 s2 H;
    rewrite !evaluateNode_unfold; apply erases_try_catch; trivial.
  - apply erases_ret.
  - unfold evaluateIdentifier.
    destruct (negb _); [apply erases_throw | apply erases_ret].
  - unfold evaluateMemberExpression. apply erases_bind; [exact IHo|].
    intros obj. destruct (is_nullish obj); [apply erases_throw|].
    apply erases_bind; [|intros; apply erases_ret].
    destruct computed; [|apply erases_ret].
    apply erases_bind; [exact IHp | intros; apply erases_to_string].
  - unfold evaluateCallExpression.
    destruct (lookup_function st callee) as [func|]; [|apply erases_throw].
    apply erases_bind; [now apply erases_arguments|].
    intros args. apply erases_invoke.
  - unfold evaluateBinaryExpression. apply erases_bind; [exact IHl|].
    intros l. apply erases_bind; [exact IHr|].
    intros r. apply erases_applyBinary.
  - unfold evaluateUnaryExpression. apply erases_bind; [exact IHa|].
    intros arg. destruct pre; [|apply erases_throw].
    destruct (String.eqb operator "!"); [apply erases_ret|].
    destruct (String.eqb operator "-"); [|apply erases_throw].
    destruct arg; try apply erases_ret;
      (apply erases_bind; [apply erases_to_string|];
       intros; apply erases_throw).
  - unfold evaluateConditionalExpression. apply erases_bind; [exact IHt|].
    intros t. now destruct (truthy t).
  - apply erases_throw.
Qed.
End Ghost.

(** ** The node kinds *)

Section NodeProperties.
Context {W : Type}.
Variable B : Builtins W.
Variable st : InterpreterState W.

Lemma logical_truthy (operator : string) (a b : Value) :
  truthy (logical operator a b) =
    if String.eqb operator "&&" then truthy a && truthy b
    else truthy a || truthy b.
Proof.
  unfold logical. destruct (String.eqb operator "&&");
    destruct (truthy a) eqn:Ea; cbn; trivial.
Qed.

Lemma applyBinary_logical (operator : string) (a b : Value) (s : store W) :
  operator = "&&" \/ operator = "||" ->
  applyBinary B operator a b s = (Normal (logical operator a b), s).
Proof. intros [-> | ->]; reflexivity. Qed.

(** A conversion to a string fails only on an object, with what the
    object's conversion threw, recorded last in the trace. *)
Lemma to_string_throw (v : Value) (s s' : store W) (e : thrown) :
  to_string B v s = (Throw e, s') ->
  exists address fields,
    v = VObj address fields /\
    trace s' = trace s ++ [Convert address (Throw e)].
Proof.
  unfold to_string, bind. destruct v; cbn; try discriminate.
  unfold convert.
  destruct (object_to_primitive B HintString address fields (host s))
    as [answer w].
  intros H. exists address, fields. split; [reflexivity|].
  destruct answer as [v|e0]; [destruct (as_primitive v)|];
    cbn in H; try discriminate; now injection H as <- <-.
Qed.

(** C1 (amended).  For a [BinaryExpression] whose operator is [&&] or [||],
    once the left operand has evaluated to a value the right operand is
    evaluated too, whatever that value is: the node ends in the store the
    right operand leaves, and the right operand is entered.  The operands
    are not converted to booleans: [&&] returns the left value when it is
    falsy and the right value otherwise, [||] the left value when it is
    truthy and the right value otherwise.  The truthiness of the result is
    the logical AND/OR of the operands' truthiness, and on two booleans the
    result is their boolean AND/OR. *)
Theorem logical_operators_evaluate_both_and_select
    (operator : string) (lhs rhs : node) (s s1 : store W) (a : Value) :
  operator = "&&" \/ operator = "||" ->
  evaluateNode B st lhs (entered (BinaryExpression operator lhs rhs) s)
    = (Normal a, s1) ->
  let result := evaluateNode B st (BinaryExpression operator lhs rhs) s in
  snd result = snd (evaluateNode B st rhs s1) /\
  (exists evs, trace (snd result) = trace s1 ++ Enter rhs :: evs) /\
  (forall b s2,
      evaluateNode B st rhs s1 = (Normal b, s2) ->
      result = (Normal (logical operator a b), s2) /\
      truthy (logical operator a b) =
        (if String.eqb operator "&&" then truthy a && truthy b
         else truthy a || truthy b)) /\
  (forall x y, logical "&&" (VBool x) (VBool y) = VBool (x && y)) /\
  (forall x y, logical "||" (VBool x) (VBool y) = VBool (x || y)).
Proof.
  intros Hop Hl result.
  assert (Hres : result =
            match evaluateNode B st rhs s1 with
            | (Normal b, s2) => (Normal (logical operator a b), s2)
            | (Throw e, s2) => (Throw (rethrow e), s2)
            end).
  { subst result. rewrite evaluateNode_unfold.
    unfold evaluateBinaryExpression, try_catch.
    rewrite (bind_normal _ _ _ _ _ Hl). unfold bind.
    destruct (evaluateNode B st rhs s1) as [[b|e] s2]; [|reflexivity].
    now rewrite applyBinary_logical. }
  repeat split.
  - rewrite Hres. now destruct (evaluateNode B st rhs s1) as [[b|e] s2].
  - destruct (evaluateNode_enters B st rhs s1) as (evs & Ht). exists evs.
    rewrite <- Ht, Hres. now destruct (evaluateNode B st rhs s1) as [[b|e] s2].
  - rewrite Hres, H. reflexivity.
  - apply logical_truthy.
  - intros [] []; reflexivity.
  - intros [] []; reflexivity.
Qed.

(** C3.  A [ConditionalExpression] evaluates its test first; from the store
    the test leaves it evaluates the consequent when the test's value is
    truthy and the alternate otherwise, and nothing else: the other branch
    does not occur in the evaluation. *)
Theorem conditional_evaluates_exactly_one_branch
    (test consequent alternate : node) (s s1 : store W) (t : Value) :
  evaluateNode B st test
    (entered (ConditionalExpression test consequent alternate) s)
    = (Normal t, s1) ->
  evaluateNode B st (ConditionalExpression test consequent alternate) s =
    try_catch
      (evaluateNode B st (if truthy t then consequent else alternate)) s1.
Proof.
  intros Ht. rewrite evaluateNode_unfold.
  unfold evaluateConditionalExpression, try_catch.
  rewrite (bind_normal _ _ _ _ _ Ht). now destruct (truthy t).
Qed.




(** C10 (amended).  A [CallExpression] whose callee is neither a key of the
    function table nor a member the table inherits fails with
    [UndefinedFunction] having entered the call node only: no argument is
    evaluated, no host function is invoked, the host's world is untouched.
    A callee that the table only inherits is found, and called. *)
Theorem unregistered_callee_fails_before_arguments
    (callee : string) (arguments : list node) (s : store W) :
  functions st !! callee = None ->
  (functions_prototype st !! callee = None ->
   evaluateNode B st (CallExpression callee arguments) s =
     (Throw (unwound 1 (UndefinedFunction callee)),
      {| host := host s;
         trace := trace s ++ [Enter (CallExpression callee arguments)] |})) /\
  (forall func, functions_prototype st !! callee = Some func ->
   evaluateNode B st (CallExpression callee arguments) s =
     try_catch
       (let* args := evaluateArguments (evaluateNode B st) arguments in
        invoke callee func args)
       (entered (CallExpression callee arguments) s)).
Proof.
  intros H. split.
  - intros H'. cbn. unfold try_catch, evaluateCallExpression, lookup_function.
    rewrite H, H'. reflexivity.
  - intros func H'. rewrite evaluateNode_unfold.
    unfold evaluateCallExpression, lookup_function. now rewrite H, H'.
Qed.

(** C2 (amended).  For a [BinaryExpression] with operator [+] whose operands
    have evaluated to values: two numbers give their sum; anything else
    converts the left operand to a string, then the right one, and gives
    the concatenation.  For operands that are not objects the strings are
    their string representations and nothing can fail.  Converting an
    object runs the object's conversion, and [+] fails exactly when such a
    conversion throws, with what it threw. *)
Theorem plus_adds_numbers_else_concatenates
    (lhs rhs : node) (s s1 s2 : store W) (a b : Value) :
  evaluateNode B st lhs (entered (BinaryExpression "+" lhs rhs) s)
    = (Normal a, s1) ->
  evaluateNode B st rhs s1 = (Normal b, s2) ->
  let result := evaluateNode B st (BinaryExpression "+" lhs rhs) s in
  (forall x y, a = VNum x -> b = VNum y ->
   result = (Normal (VNum (x + y)), s2)) /\
  (is_number a && is_number b = false ->
   (forall p q, as_primitive a = Some p -> as_primitive b = Some q ->
    result =
      (Normal (VStr (primitive_to_string B p +:+ primitive_to_string B q)), s2)) /\
   (forall l s3 r s4,
       to_string B a s2 = (Normal l, s3) ->
       to_string B b s3 = (Normal r, s4) ->
       result = (Normal (VStr (l +:+ r)), s4)) /\
   (forall e s3, to_string B a s2 = (Throw e, s3) ->
    result = (Throw (rethrow e), s3)) /\
   (forall l s3 e s4,
       to_string B a s2 = (Normal l, s3) ->
       to_string B b s3 = (Throw e, s4) ->
       result = (Throw (rethrow e), s4))) /\
  (forall e s3, result = (Throw e, s3) ->
   exists address fields failure evs,
     (a = VObj address fields \/ b = VObj address fields) /\
     e = rethrow failure /\
     trace s3 = evs ++ [Convert address (Throw failure)]).
Proof.
  intros Hl Hr result.
  assert (Hsum : forall x y, a = VNum x -> b = VNum y ->
            result = (Normal (VNum (x + y)), s2)).
  { intros x y -> ->. subst result. rewrite evaluateNode_unfold.
    unfold evaluateBinaryExpression. apply try_catch_normal.
    now rewrite (bind_normal _ _ _ _ _ Hl), (bind_normal _ _ _ _ _ Hr). }
  assert (Hcat : is_number a && is_number b = false ->
            result =
              try_catch
                (let* l := to_string B a in
                 let* r := to_string B b in
                 ret (VStr (l +:+ r))) s2).
  { intros Hn. subst result. rewrite evaluateNode_unfold.
    unfold evaluateBinaryExpression, try_catch.
    rewrite (bind_normal _ _ _ _ _ Hl), (bind_normal _ _ _ _ _ Hr).
    unfold applyBinary.
    change (String.eqb "+" "+") with true. cbv iota.
    destruct a, b; try discriminate; reflexivity. }
  split; [exact Hsum|]. split.
  - intros Hn. rewrite (Hcat Hn). split; [|split; [|split]].
    + intros p q Hp Hq. apply try_catch_normal.
      rewrite (bind_normal _ _ _ _ _ (to_string_primitive B a p s2 Hp)).
      now rewrite (bind_normal _ _ _ _ _ (to_string_primitive B b q s2 Hq)).
    + intros l s3 r s4 Ha Hb. apply try_catch_normal.
      now rewrite (bind_normal _ _ _ _ _ Ha), (bind_normal _ _ _ _ _ Hb).
    + intros e s3 Ha. apply try_catch_throw. now apply bind_throw.
    + intros l s3 e s4 Ha Hb. apply try_catch_throw.
      rewrite (bind_normal _ _ _ _ _ Ha). now apply bind_throw.
  - intros e s3 He.
    destruct (is_number a && is_number b) eqn:Hn.
    { destruct a, b; try discriminate. rewrite (Hsum n n0) in He; trivial.
      discriminate. }
    rewrite (Hcat eq_refl) in He. unfold try_catch, bind in He.
    destruct (to_string B a s2) as [[l|ea] sa] eqn:Ea.
    + destruct (to_string B b sa) as [[r|eb] sb] eqn:Eb; [discriminate|].
      injection He as <- <-.
      destruct (to_string_throw _ _ _ _ Eb) as (address & fields & -> & Ht).
      exists address, fields, eb, (trace sa). auto.
    + injection He as <- <-.
      destruct (to_string_throw _ _ _ _ Ea) as (address & fields & -> & Ht).
      exists address, fields, ea, (trace s2). auto.
Qed.
End NodeProperties.

(** ** The state objects and the entry point *)

Section StateObjectProperties.
Context {W : Type}.
Variable B : Builtins W.
Implicit Types (h : gmap positive (object W)) (o : object W) (l : positive).

Lemma alloc_fresh o h : h !! (alloc o h).1 = None.
Proof. cbn. apply not_elem_of_dom, is_fresh. Qed.

Lemma alloc_lookup o h : (alloc o h).2 !! (alloc o h).1 = Some o.
Proof. cbn. apply lookup_insert_eq. Qed.

Lemma alloc_extends o h : h ⊆ (alloc o h).2.
Proof. cbn. apply insert_subseteq, (alloc_fresh o h). Qed.

Lemma alloc_fresh_below o h0 h : h0 ⊆ h -> h0 !! (alloc o h).1 = None.
Proof.
  intros Hsub. destruct (h0 !! (alloc o h).1) as [x|] eqn:E; [|reflexivity].
  pose proof (alloc_fresh o h) as Hfresh.
  now rewrite (lookup_weaken _ _ _ _ E Hsub) in Hfresh.
Qed.

Lemma alloc_lookup_other o h l x :
  (alloc o h).2 !! l = Some x -> x <> o -> h !! l = Some x.
Proof.
  intros H Hne. destruct (decide (l = (alloc o h).1)) as [->|Hl].
  - rewrite alloc_lookup in H. congruence.
  - cbn in H. now rewrite lookup_insert_ne in H.
Qed.

(** What a state reference denotes, by the three objects it reaches. *)
Lemma view_lookup h l (st : InterpreterState W) :
  view h l = Some st <->
  exists c f,
    h !! l = Some (StateObject c f) /\
    h !! c = Some (ContextObject (context st) (context_prototype st)) /\
    h !! f = Some (FunctionsObject (functions st) (functions_prototype st)).
Proof.
  unfold view, read_state, read_context, read_context_prototype,
    read_functions, read_functions_prototype.
  split.
  - intros H.
    destruct (h !! l) as [[| |c f]|] eqn:El; try discriminate. cbn in H.
    destruct (h !! c) as [[ctx ctxp| |]|] eqn:Ec; try discriminate. cbn in H.
    destruct (h !! f) as [[|fns fnsp|]|] eqn:Ef; try discriminate. cbn in H.
    injection H as <-. now exists c, f.
  - intros (c & f & -> & Hc & Hf). cbn. rewrite Hc. cbn. rewrite Hf. cbn.
    now destruct st.
Qed.

Lemma view_extends h h' l (st : InterpreterState W) :
  h ⊆ h' -> view h l = Some st -> view h' l = Some st.
Proof.
  intros Hsub (c & f & Hl & Hc & Hf)%view_lookup. apply view_lookup.
  exists c, f. repeat split; eapply lookup_weaken; eassumption.
Qed.

Lemma read_context_lookup h l entries :
  read_context h l = Some entries <->
  exists inherited, h !! l = Some (ContextObject entries inherited).
Proof.
  unfold read_context. split.
  - destruct (h !! l) as [[ctx ctxp| |]|]; try discriminate.
    intros H. injection H as <-. now exists ctxp.
  - now intros (inherited & ->).
Qed.


(** The state an evaluation runs against. *)
Lemma evaluate_inv (ast : Program) (state : positive)
    (override : option positive) h (w : W) r s' h' :
  evaluate B ast state override h w = Some (r, s', h') ->
  exists st,
    evaluateNode B st (body ast) {| host := w; trace := [] |} = (r, s') /\
    match override with
    | None => view h state = Some st /\ h' = h
    | Some o =>
        exists base over,
          view h state = Some base /\
          read_context h o = Some over /\
          st = {| context := over ∪ context base;
                  functions := functions base;
                  context_prototype := object_prototype B;
                  functions_prototype := functions_prototype base |}
    end.
Proof.
  unfold evaluate. intros H. destruct override as [o|].
  - destruct (read_state h state) as [[c f]|] eqn:Es; [|discriminate].
    cbn in H.
    destruct (read_context h c) as [base|] eqn:Ec; [|discriminate]. cbn in H.
    destruct (read_context h o) as [over|] eqn:Eo; [|discriminate]. cbn in H.
    set (a1 := alloc (ContextObject (over ∪ base) (object_prototype B)) h) in *.
    set (a2 := alloc (StateObject a1.1 f) a1.2) in *.
    change (fresh (dom h)) with a1.1 in H.
    change (<[a1.1 := ContextObject (over ∪ base) (object_prototype B)]> h)
      with a1.2 in H.
    change (fresh (dom a1.2)) with a2.1 in H.
    change (<[a2.1 := StateObject a1.1 f]> a1.2) with a2.2 in H.
    destruct (view a2.2 a2.1) as [st|] eqn:Ev; [|discriminate]. cbn in H.
    injection H as Hr _. exists st. split; [now destruct (evaluateNode _ _ _ _)|].
    apply view_lookup in Ev as (c0 & f0 & Hl & Hc0 & Hf0).
    assert (Ha2 : a2.2 !! a2.1 = Some (StateObject a1.1 f))
      by (subst a2; apply alloc_lookup).
    assert (Heq : c0 = a1.1 /\ f0 = f) by (rewrite Ha2 in Hl; now injection Hl).
    destruct Heq as [-> ->]. clear Hl.
    assert (Ha1 : a2.2 !! a1.1
                  = Some (ContextObject (over ∪ base) (object_prototype B))).
    { apply (lookup_weaken a1.2); [|apply alloc_extends].
      subst a1. apply alloc_lookup. }
    rewrite Ha1 in Hc0. injection Hc0 as Hctx Hproto.
    assert (Hf : h !! f = Some (FunctionsObject (functions st)
                                  (functions_prototype st))).
    { apply (alloc_lookup_other
               (ContextObject (over ∪ base) (object_prototype B)));
        [|discriminate].
      now apply (alloc_lookup_other (StateObject a1.1 f)). }
    apply read_context_lookup in Ec as (inherited & Hc).
    unfold read_state in Es.
    destruct (h !! state) as [[| |c1 f1]|] eqn:El; try discriminate.
    injection Es as -> ->.
    exists {| context := base; functions := functions st;
              context_prototype := inherited;
              functions_prototype := functions_prototype st |}, over.
    split; [|split; [reflexivity|]].
    + apply view_lookup. now exists c, f.
    + destruct st as [ctx fns ctxp fnsp]. cbn in *. now subst.
  - cbn in H. destruct (view h state) as [st|] eqn:Ev; [|discriminate].
    cbn in H. injection H as Hr <-. exists st.
    split; [now destruct (evaluateNode _ _ _ _) | now split].
Qed.


(** C6 (amended).  What a host function throws reaches the caller of
    [evaluate] re-wrapped once per dispatch frame between the call and the
    caller: the call node's own frame and one for each expression that
    encloses it.  The re-wrapping leaves an error that is not an
    [ExpressionError] as it was thrown, and prefixes the message of an
    [ExpressionError], a host function's included, with
    "Evaluation error: " once per frame.  The evaluation ends with the
    throwing call, in the world the host function left.  Whatever host code
    is recorded as throwing is the outcome up to the re-wrapping, and every
    [ExpressionError] that reaches the caller carries the prefix. *)
Theorem host_errors_reach_the_caller
    (ast : Program) (state : positive)
    (override : option positive) h (w : W) r s' h' :
  evaluate B ast state override h w = Some (r, s', h') ->
  exists st,
    evaluateNode B st (body ast) {| host := w; trace := [] |} = (r, s') /\
    match override with
    | None => view h state = Some st /\ h' = h
    | Some o =>
        exists base over,
          view h state = Some base /\
          read_context h o = Some over /\
          st = {| context := over ∪ context base;
                  functions := functions base;
                  context_prototype := object_prototype B;
                  functions_prototype := functions_prototype base |}
    end /\
    (forall frames callee arguments s func values s1 e w',
        nested B st frames (body ast) {| host := w; trace := [] |}
          (CallExpression callee arguments) s ->
        lookup_function st callee = Some func ->
        evaluateArguments (evaluateNode B st) arguments
          (entered (CallExpression callee arguments) s) = (Normal values, s1) ->
        func values (host s1) = (Throw e, w') ->
        r = Throw (unwound (S frames) e) /\
        s' = {| host := w';
                trace := trace s1 ++ [Invoke callee values (Throw e)] |} /\
        (forall payload, e = HostError payload -> r = Throw (HostError payload)) /\
        (forall message,
            e = ExpressionError message ->
            r = Throw (ExpressionError (prefixed (S frames) message)))) /\
    (forall ev e,
        In ev (trace s') -> threw ev e ->
        exists frames, r = Throw (unwound (S frames) e)) /\
    (forall message,
        r = Throw (ExpressionError message) ->
        exists inner, message = "Evaluation error: " +:+ inner).
Proof.
  intros (st & Hr & Hst)%evaluate_inv. exists st.
  set (s0 := {| host := w; trace := [] |}) in *.
  split; [exact Hr|]. split; [exact Hst|]. split; [|split].
  - intros frames callee arguments s func values s1 e w' Hn Hf Ha He.
    pose proof (call_throw B st callee arguments func values s s1 e w' Hf Ha He)
      as Hcall.
    pose proof (nested_throw B st frames _ _ _ _ _ _ Hn Hcall) as Hroot.
    rewrite Hr, unwound_rethrow in Hroot. injection Hroot as -> ->.
    repeat split.
    + intros payload ->. now rewrite unwound_host.
    + intros message ->. now rewrite unwound_expression.
  - intros ev e Hi He.
    destruct (evaluateNode_propagates B st (body ast) s0) as (evs & Ht & Hin).
    rewrite Hr in Ht, Hin. cbn in Ht, Hin. rewrite Ht in Hi.
    destruct Hi as [<-|Hi]; [destruct He|].
    destruct (Hin _ _ Hi He) as ([|k] & Hk & ->); [lia|]. now exists k.
  - intros message ->. rewrite evaluateNode_unfold in Hr.
    unfold try_catch in Hr.
    destruct (_ (entered (body ast) s0)) as [[v|[inner|p]] s1];
      try discriminate.
    injection Hr as <- _. now exists inner.
Qed.
End StateObjectProperties.

(** ** Examples *)

Example plus_of_string_and_number {W} (B : Builtins W)
    (st : InterpreterState W) (s : store W) :
  fst (evaluateNode B st
         (BinaryExpression "+" (Literal (LString "a")) (Literal (LNumber 1))) s)
    = Normal (VStr "a1") /\
  fst (evaluateNode B st
         (BinaryExpression "+" (Literal (LNumber 1)) (Literal (LString "a"))) s)
    = Normal (VStr "1a") /\
  fst (evaluateNode B st
         (BinaryExpression "+" (Literal (LNumber 1)) (Literal (LNumber 2))) s)
    = Normal (VNum 3).
Proof. repeat split; reflexivity. Qed.

(** A counting host function as the right operand is invoked even when the
    left operand decides the result. *)
Example logical_operators_do_not_short_circuit :
  let run n := evaluateNode sample_builtins sample_state n sample_store in
  let counted := CallExpression "count" [] in
  (fst (run (BinaryExpression "&&" (Literal (LBoolean false)) counted))
     = Normal (VBool false) /\
   host (snd (run (BinaryExpression "&&" (Literal (LBoolean false)) counted)))
     = 1) /\
  (fst (run (BinaryExpression "||" (Literal (LBoolean true)) counted))
     = Normal (VBool true) /\
   host (snd (run (BinaryExpression "||" (Literal (LBoolean true)) counted)))
     = 1).
Proof. repeat split; reflexivity. Qed.

(** [false ? @callee(...) : 5] is 5 and invokes nothing, whatever the callee
    is and does. *)
Example false_test_skips_the_consequent {W} (B : Builtins W)
    (st : InterpreterState W) (callee : string) (arguments : list node)
    (s : store W) :
  let n := ConditionalExpression (Literal (LBoolean false))
             (CallExpression callee arguments) (Literal (LNumber 5)) in
  evaluateNode B st n s =
    (Normal (VNum 5),
     {| host := host s;
        trace := trace s ++
                 [Enter n; Enter (Literal (LBoolean false));
                  Enter (Literal (LNumber 5))] |}).
Proof. cbn. unfold try_catch, record. cbn. now rewrite <- !app_assoc. Qed.

Example member_access_on_data :
  let run n := fst (evaluateNode sample_builtins sample_state n sample_store) in
  run (MemberExpression (Identifier "data") (Identifier "value") false)
    = Normal (VNum 42) /\
  run (MemberExpression (Identifier "data") (Literal (LString "value")) true)
    = Normal (VNum 42) /\
  run (MemberExpression (Identifier "data") (Identifier "other") false)
    = Normal VUndefined /\
  run (MemberExpression (Identifier "bare") (Identifier "toString") false)
    = Normal VUndefined /\
  run (MemberExpression (Identifier "nothing") (Identifier "value") false)
    = Throw (unwound 1 NullPropertyAccess).
Proof. repeat split; reflexivity. Qed.

(** Conversions of objects: an ordinary object converts by the inherited
    [toString]; an object with no prototype does not convert, whichever
    operator asks. *)
Example objects_are_converted_by_their_own_code :
  let run n := fst (evaluateNode sample_builtins sample_state n sample_store) in
  run (BinaryExpression "+" (Identifier "data") (Literal (LNumber 1)))
    = Normal (VStr "[object Object]1") /\
  run (UnaryExpression "-" true (Identifier "data"))
    = Throw (unwound 1 (NonNumericNegation "[object Object]")) /\
  run (UnaryExpression "-" true (Identifier "bare"))
    = Throw (HostError sample_type_error) /\
  run (BinaryExpression "<" (Identifier "bare") (Literal (LNumber 1)))
    = Throw (HostError sample_type_error) /\
  run (MemberExpression (Identifier "data") (Identifier "bare") true)
    = Throw (HostError sample_type_error).
Proof. repeat split; reflexivity. Qed.

(** The override wins on the key it has and leaves the others alone. *)
Example override_shadows_one_key :
  let outcome ast :=
    (fun r => fst (fst r)) <$>
      evaluate sample_builtins ast 3 (Some 4%positive) sample_heap 0 in
  outcome {| body := Identifier "nothing" |} = Some (Normal (VNum 7)) /\
  outcome {| body := MemberExpression (Identifier "data")
                       (Identifier "value") false |}
    = Some (Normal (VNum 42)) /\
  (fun r => fst (fst r)) <$>
    evaluate sample_builtins {| body := Identifier "nothing" |} 3 None
      sample_heap 0 = Some (Normal VNull).
Proof. repeat split; vm_compute; reflexivity. Qed.

(** A context and a function table without a prototype have no inherited
    names; the objects [evaluate] and [setFunction] build are ordinary ones
    and have them. *)
Example merged_and_registered_objects_are_ordinary :
  let outcome r := (fun r => fst (fst r)) <$> r in
  let name := {| body := Identifier "toString" |} in
  let call := {| body := CallExpression "toString" [] |} in
  outcome (evaluate sample_builtins name 7 None bare_heap 0)
    = Some (Throw (unwound 1 (UndefinedVariable "toString"))) /\
  outcome (evaluate sample_builtins name 7 (Some 4%positive) bare_heap 0)
    = Some (Normal (VObj 50 ∅)) /\
  outcome (evaluate sample_builtins call 7 None bare_heap 0)
    = Some (Throw (unwound 1 (UndefinedFunction "toString"))) /\
  outcome
    ('(s2, h2) ← setFunction sample_builtins 7 "f" count_calls bare_heap;
     evaluate sample_builtins call s2 None h2 0)
    = Some (Normal (VStr "[object Undefined]")).
Proof. repeat split; vm_compute; reflexivity. Qed.

(** ** Witnesses and counterexamples *)

(** [1 && 2] is [2], not the boolean [true]. *)
Lemma logical_and_returns_an_operand :
  fst (evaluateNode sample_builtins sample_state
         (BinaryExpression "&&" (Literal (LNumber 1)) (Literal (LNumber 2)))
         sample_store) = Normal (VNum 2) /\
  Normal (VNum 2) <> Normal (VBool (truthy (VNum 1) && truthy (VNum 2))).
Proof. split; [reflexivity | discriminate]. Qed.

Lemma logical_operators_witness :
  let n := BinaryExpression "||" (Literal (LBoolean true))
             (CallExpression "count" []) in
  evaluateNode sample_builtins sample_state n sample_store =
    (Normal (VBool true),
     {| host := 1;
        trace := [Enter n; Enter (Literal (LBoolean true));
                  Enter (CallExpression "count" []);
                  Invoke "count" [] (Normal (VBool true))] |}).
Proof.
  refine (proj1 (proj1 (proj2 (proj2
    (logical_operators_evaluate_both_and_select sample_builtins sample_state
       "||" (Literal (LBoolean true)) (CallExpression "count" [])
       sample_store _ (VBool true) (or_intror eq_refl) eq_refl)))
    (VBool true) _ eq_refl)).
Defined.

(** [bare + 1], with [bare] an object that has no [toString] and no
    [valueOf]: both operands evaluate to values, and [+] itself throws. *)
Lemma plus_of_an_unconvertible_object_fails :
  let n := BinaryExpression "+" (Identifier "bare") (Literal (LNumber 1)) in
  fst (evaluateNode sample_builtins sample_state (Identifier "bare")
         (entered n sample_store)) = Normal (VObj 9 ∅) /\
  (forall s, fst (evaluateNode sample_builtins sample_state
                    (Literal (LNumber 1)) s) = Normal (VNum 1)) /\
  evaluateNode sample_builtins sample_state n sample_store =
    (Throw (HostError sample_type_error),
     {| host := 0;
        trace := [Enter n; Enter (Identifier "bare");
                  Enter (Literal (LNumber 1));
                  Convert 9 (Throw (HostError sample_type_error))] |}).
Proof. repeat split; reflexivity. Qed.

Lemma plus_witness :
  let n := BinaryExpression "+" (Literal (LString "a")) (Literal (LNumber 1)) in
  evaluateNode sample_builtins sample_state n sample_store =
    (Normal (VStr "a1"),
     {| host := 0;
        trace := [Enter n; Enter (Literal (LString "a"));
                  Enter (Literal (LNumber 1))] |}).
Proof.
  refine (proj1 (proj1 (proj2
    (plus_adds_numbers_else_concatenates sample_builtins sample_state
       (Literal (LString "a")) (Literal (LNumber 1)) sample_store
       _ _ (VStr "a") (VNum 1) eq_refl eq_refl)) eq_refl)
    (PStr "a") (PNum 1) eq_refl eq_refl).
Defined.

(** [false ? @fail() : 5] with a registered, throwing [fail]. *)
Lemma conditional_witness :
  let n := ConditionalExpression (Literal (LBoolean false))
             (CallExpression "fail" []) (Literal (LNumber 5)) in
  evaluateNode sample_builtins sample_state n sample_store =
    (Normal (VNum 5),
     {| host := 0;
        trace := [Enter n; Enter (Literal (LBoolean false));
                  Enter (Literal (LNumber 5))] |}).
Proof.
  exact (conditional_evaluates_exactly_one_branch sample_builtins sample_state
           (Literal (LBoolean false)) (CallExpression "fail" [])
           (Literal (LNumber 5)) sample_store _ (VBool false) eq_refl).
Defined.






(** [@toString(@count())]: [toString] is not in the function table, yet the
    argument is evaluated, [count] is invoked and the call returns. *)
Lemma inherited_callee_is_called :
  let n := CallExpression "toString" [CallExpression "count" []] in
  functions sample_state !! "toString" = None /\
  evaluateNode sample_builtins sample_state n sample_store =
    (Normal (VStr "[object Undefined]"),
     {| host := 1;
        trace := [Enter n; Enter (CallExpression "count" []);
                  Invoke "count" [] (Normal (VBool true));
                  Invoke "toString" [VBool true]
                    (Normal (VStr "[object Undefined]"))] |}).
Proof. split; reflexivity. Qed.

Lemma unregistered_callee_witness :
  let n := CallExpression "missing" [CallExpression "count" []] in
  evaluateNode sample_builtins sample_state n sample_store =
    (Throw (ExpressionError "Evaluation error: Undefined function: missing"),
     {| host := 0; trace := [Enter n] |}).
Proof.
  refine (proj1
    (unregistered_callee_fails_before_arguments sample_builtins sample_state
       "missing" [CallExpression "count" []] sample_store eq_refl) eq_refl).
Defined.



(** A host function that throws an [ExpressionError] has it re-wrapped: the
    caller does not receive what the function threw. *)
Lemma host_expression_error_is_rewrapped :
  let outcome :=
    evaluate sample_builtins {| body := CallExpression "reject" [] |} 3 None
      sample_heap 0 in
  outcome =
    Some (Throw (ExpressionError "Evaluation error: rejected"),
          {| host := 0;
             trace := [Enter (CallExpression "reject" []);
                       Invoke "reject" [] (Throw (ExpressionError "rejected"))] |},
          sample_heap) /\
  rejecting [] 0 = (Throw (ExpressionError "rejected"), 0) /\
  Throw (A:=Value) (ExpressionError "Evaluation error: rejected") <>
    Throw (ExpressionError "rejected").
Proof. split; [reflexivity | split; [reflexivity | discriminate]]. Qed.

(** [!@reject()] and [!@fail()]: the call is one frame in, so what the
    function throws is re-wrapped twice. *)
Lemma host_errors_witness :
  let run callee :=
    evaluate sample_builtins
      {| body := UnaryExpression "!" true (CallExpression callee []) |} 3 None
      sample_heap 0 in
  (exists s', run "reject" =
     Some (Throw (ExpressionError "Evaluation error: Evaluation error: rejected"),
           s', sample_heap)) /\
  (exists s', run "fail" =
     Some (Throw (HostError (VStr "host failure")), s', sample_heap)).
Proof.
  assert (Hview : forall st, view sample_heap 3 = Some st -> st = sample_state)
    by (intros st H; vm_compute in H; now injection H as <-).
  split.
  - destruct (evaluate sample_builtins
                {| body := UnaryExpression "!" true (CallExpression "reject" []) |}
                3 None sample_heap 0) as [[[r s'] h']|] eqn:E;
      [|vm_compute in E; discriminate].
    destruct (host_errors_reach_the_caller sample_builtins _ _ _ _ _ _ _ _ E)
      as (st & _ & [Hv ->] & Hcall & _).
    apply Hview in Hv. subst st.
    destruct (Hcall 1 "reject" [] _ rejecting [] _ (ExpressionError "rejected") 0
                (nested_step _ _ _ _ _ _ _ _ _
                   (child_operand _ _ "!" true _ _) (nested_here _ _ _ _))
                eq_refl eq_refl eq_refl) as (-> & _).
    now exists s'.
  - destruct (evaluate sample_builtins
                {| body := UnaryExpression "!" true (CallExpression "fail" []) |}
                3 None sample_heap 0) as [[[r s'] h']|] eqn:E;
      [|vm_compute in E; discriminate].
    destruct (host_errors_reach_the_caller sample_builtins _ _ _ _ _ _ _ _ E)
      as (st & _ & [Hv ->] & Hcall & _).
    apply Hview in Hv. subst st.
    destruct (Hcall 1 "fail" [] _ host_failure [] _
                (HostError (VStr "host failure")) 0
                (nested_step _ _ _ _ _ _ _ _ _
                   (child_operand _ _ "!" true _ _) (nested_here _ _ _ _))
                eq_refl eq_refl eq_refl) as (-> & _).
    now exists s'.
Defined.

(** * Further properties *)

(** ** What an evaluation reads *)

Section Agreement.
Context {W : Type}.
Variable B : Builtins W.
Variables st1 st2 : InterpreterState W.

Lemma bind_ext {A C} (m m' : M W A) (k k' : A -> M W C) (s : store W) :
  m s = m' s -> (forall a s1, k a s1 = k' a s1) -> bind m k s = bind m' k' s.
Proof.
  intros Hm Hk. unfold bind. rewrite Hm.
  destruct (m' s) as [[a|e] s1]; [apply Hk | reflexivity].
Qed.

Lemma try_catch_ext {A} (m m' : M W A) (s : store W) :
  m s = m' s -> try_catch m s = try_catch m' s.
Proof. unfold try_catch. now intros ->. Qed.

Lemma evaluateArguments_ext (f g : node -> M W Value) (arguments : list node) :
  Forall (fun n => forall s, f n s = g n s) arguments ->
  forall s, evaluateArguments f arguments s = evaluateArguments g arguments s.
Proof.
  induction 1 as [|n rest Hn _ IH]; intros s; cbn; [reflexivity|].
  apply bind_ext; [apply Hn|]. intros v s1.
  apply bind_ext; [apply IH | reflexivity].
Qed.

Lemma evaluateNode_agree (n : node) :
  (forall x, In x (identifiers n) ->
             lookup_variable st1 x = lookup_variable st2 x) ->
  (forall f, In f (callees n) ->
             lookup_function st1 f = lookup_function st2 f) ->
  forall s, evaluateNode B st1 n s = evaluateNode B st2 n s.
Proof.
  induction n as [value | name | object property computed IHo IHp
                  | callee arguments IHargs | operator lhs rhs IHl IHr
                  | operator pre argument IHa
                  | test consequent alternate IHt IHc IHalt | type]
    using node_induction; cbn [identifiers callees]; intros Hid Hfn s;
    rewrite !evaluateNode_unfold; apply try_catch_ext.
  - reflexivity.
  - unfold evaluateIdentifier. rewrite (Hid name) by now left. reflexivity.
  - unfold evaluateMemberExpression. apply bind_ext.
    + apply IHo; intros; [apply Hid | apply Hfn]; apply in_app_iff; now left.
    + intros obj s1. destruct (is_nullish obj); [reflexivity|].
      apply bind_ext; [|reflexivity].
      destruct computed; [|reflexivity].
      apply bind_ext; [|reflexivity].
      apply IHp; intros; [apply Hid | apply Hfn]; apply in_app_iff; now right.
  - unfold evaluateCallExpression. rewrite (Hfn callee) by now left.
    destruct (lookup_function st2 callee) as [func|]; [|reflexivity].
    apply bind_ext; [|reflexivity].
    apply evaluateArguments_ext.
    rewrite List.Forall_forall in IHargs |- *. intros a Ha s1.
    apply (IHargs a Ha); intros x Hx.
    + apply Hid, in_flat_map. eauto.
    + apply Hfn. right. apply in_flat_map. eauto.
  - unfold evaluateBinaryExpression. apply bind_ext.
    + apply IHl; intros; [apply Hid | apply Hfn]; apply in_app_iff; now left.
    + intros l s1. apply bind_ext; [|reflexivity].
      apply IHr; intros; [apply Hid | apply Hfn]; apply in_app_iff; now right.
  - unfold evaluateUnaryExpression. apply bind_ext; [|reflexivity].
    now apply IHa.
  - unfold evaluateConditionalExpression. apply bind_ext.
    + apply IHt; intros; [apply Hid | apply Hfn]; apply in_app_iff; now left.
    + intros t s1. destruct (truthy t).
      * apply IHc; intros; [apply Hid | apply Hfn];
          apply in_app_iff; right; apply in_app_iff; now left.
      * apply IHalt; intros; [apply Hid | apply Hfn];
          apply in_app_iff; right; apply in_app_iff; now right.
  - reflexivity.
Qed.
End Agreement.

(** X1.  An evaluation reads the context only at the identifiers that occur
    in the AST (the property of a member access that is not computed is not
    one of them) and the function table only at the callees that occur, each
    through the object's own properties and then through what the object
    inherits: two states that resolve those names alike evaluate the AST
    alike. *)
Theorem evaluation_reads_only_the_names_that_occur
    {W : Type} (B : Builtins W) (st1 st2 : InterpreterState W) (n : node)
    (s : store W) :
  (forall x, In x (identifiers n) ->
             lookup_variable st1 x = lookup_variable st2 x) ->
  (forall f, In f (callees n) ->
             lookup_function st1 f = lookup_function st2 f) ->
  evaluateNode B st1 n s = evaluateNode B st2 n s.
Proof. intros Hid Hfn. now apply evaluateNode_agree. Qed.

(** ** Purity *)

Section Quiet.
Context {W : Type}.
Variable B : Builtins W.
Variable st : InterpreterState W.

Lemma invocations_app (evs1 evs2 : list event) :
  invocations (evs1 ++ evs2) = invocations evs1 + invocations evs2.
Proof. induction evs1 as [|[] ? IH]; cbn; lia. Qed.

Lemma entries_app (evs1 evs2 : list event) :
  entries (evs1 ++ evs2) = entries evs1 + entries evs2.
Proof. induction evs1 as [|[] ? IH]; cbn; lia. Qed.

Lemma conversions_app (evs1 evs2 : list event) :
  conversions (evs1 ++ evs2) = conversions evs1 + conversions evs2.
Proof. induction evs1 as [|[] ? IH]; cbn; lia. Qed.

Lemma quiet_ret {A} (a : A) (s : store W) : quiet s (ret a s).
Proof. exists []. cbn. now rewrite app_nil_r. Qed.


Lemma quiet_bind {A C} (m : M W A) (k : A -> M W C) (s : store W) :
  quiet s (m s) -> (forall a s1, quiet s1 (k a s1)) -> quiet s (bind m k s).
Proof.
  intros (evs & Ht & Hi & Hh) Hk. unfold bind.
  destruct (m s) as [[a|e] s1]; cbn in *.
  - destruct (Hk a s1) as (evs2 & Ht2 & Hi2 & Hh2).
    exists (evs ++ evs2).
    rewrite Ht2, Ht, app_assoc, invocations_app, conversions_app.
    split; [reflexivity|]. split; [lia|].
    intros Hc. rewrite Hh2 by lia. apply Hh. lia.
  - now exists evs.
Qed.








Lemma quiet_arguments (arguments : list node) :
  Forall (fun n => callees n = [] -> forall s, quiet s (evaluateNode B st n s))
    arguments ->
  flat_map callees arguments = [] ->
  forall s, quiet s (evaluateArguments (evaluateNode B st) arguments s).
Proof.
  induction 1 as [|n rest Hn _ IH]; cbn; intros Hc s.
  - apply quiet_ret.
  - apply app_eq_nil in Hc as [Hc1 Hc2]. apply quiet_bind; [now apply Hn|].
    intros v s1. apply quiet_bind; [now apply IH|].
    intros vs s2. apply quiet_ret.
Qed.

End Quiet.


(** ** How much an evaluation does *)

Section Bounded.
Context {W : Type}.
Variable B : Builtins W.
Variable st : InterpreterState W.

Lemma bounded_weaken {A} (s : store W) (res : completion A * store W)
    (e i e' i' : nat) :
  e <= e' -> i <= i' -> bounded s res e i -> bounded s res e' i'.
Proof. intros He Hi (evs & Ht & ? & ?). exists evs. repeat split; trivial; lia. Qed.

Lemma bounded_ret {A} (a : A) (s : store W) : bounded s (ret a s) 0 0.
Proof. exists []. cbn. now rewrite app_nil_r. Qed.

Lemma bounded_throw {A} (e : thrown) (s : store W) :
  bounded (A:=A) s (throw e s) 0 0.
Proof. exists []. cbn. now rewrite app_nil_r. Qed.

Lemma bounded_bind {A C} (m : M W A) (k : A -> M W C) (s : store W)
    (e1 i1 e2 i2 : nat) :
  bounded s (m s) e1 i1 ->
  (forall a s1, bounded s1 (k a s1) e2 i2) ->
  bounded s (bind m k s) (e1 + e2) (i1 + i2).
Proof.
  intros (evs & Ht & He & Hi) Hk. unfold bind.
  destruct (m s) as [[a|e] s1]; cbn in *.
  - destruct (Hk a s1) as (evs2 & Ht2 & He2 & Hi2). exists (evs ++ evs2).
    rewrite Ht2, Ht, app_assoc, entries_app, invocations_app.
    repeat split; trivial; lia.
  - exists evs. repeat split; trivial; lia.
Qed.

Lemma bounded_frame {A} (n : node) (m : M W A) (s : store W) (e i : nat) :
  bounded (entered n s) (m (entered n s)) e i ->
  bounded s (try_catch m (entered n s)) (S e) i.
Proof.
  intros (evs & Ht & He & Hi). exists (Enter n :: evs).
  unfold try_catch. cbn in Ht. rewrite <- app_assoc in Ht.
  destruct (m (entered n s)) as [[a|x] s1]; cbn in *;
    repeat split; trivial; lia.
Qed.

Lemma bounded_invoke (callee : string) (func : host_function W)
    (args : list Value) (s : store W) :
  bounded s (invoke callee func args s) 0 1.
Proof.
  unfold invoke. destruct (func args (host s)) as [result w].
  exists [Invoke callee args result]. cbn. repeat split; trivial; lia.
Qed.

Lemma bounded_seq {A C} (m : M W A) (k : A -> M W C) (s : store W)
    (e1 i1 e2 i2 e i : nat) :
  bounded s (m s) e1 i1 ->
  (forall a s1, bounded s1 (k a s1) e2 i2) ->
  e1 + e2 <= e -> i1 + i2 <= i ->
  bounded s (bind m k s) e i.
Proof.
  intros Hm Hk He Hi. apply (bounded_weaken _ _ (e1 + e2) (i1 + i2)); trivial.
  now apply bounded_bind.
Qed.

(** Steps that enter no node and invoke nothing compose. *)
Lemma bounded_still {A C} (m : M W A) (k : A -> M W C) (s : store W) :
  bounded s (m s) 0 0 ->
  (forall a s1, bounded s1 (k a s1) 0 0) ->
  bounded s (bind m k s) 0 0.
Proof. intros Hm Hk. now apply (bounded_bind m k s 0 0 0 0). Qed.

Lemma bounded_to_primitive (preferred : hint) (v : Value) (s : store W) :
  bounded s (to_primitive B preferred v s) 0 0.
Proof.
  destruct v; cbn; try apply bounded_ret. unfold convert.
  destruct (object_to_primitive B preferred address fields (host s))
    as [answer w].
  eexists [Convert address _]. cbn. repeat split; trivial.
Qed.

Lemma bounded_to_string (v : Value) (s : store W) :
  bounded s (to_string B v s) 0 0.
Proof.
  apply bounded_still; [apply bounded_to_primitive | intros; apply bounded_ret].
Qed.

Lemma bounded_to_number (v : Value) (s : store W) :
  bounded s (to_number B v s) 0 0.
Proof.
  apply bounded_still; [apply bounded_to_primitive | intros; apply bounded_ret].
Qed.

Lemma bounded_arguments (arguments : list node) :
  Forall (fun n => forall s,
              bounded s (evaluateNode B st n s) (size n) (length (callees n)))
    arguments ->
  forall s,
    bounded s (evaluateArguments (evaluateNode B st) arguments s)
      (list_sum (map size arguments)) (length (flat_map callees arguments)).
Proof.
  induction 1 as [|n rest Hn _ IH]; cbn [map flat_map evaluateArguments];
    intros s.
  - apply bounded_ret.
  - rewrite length_app.
    apply bounded_seq with (e1 := size n) (i1 := length (callees n))
      (e2 := list_sum (map size rest))
      (i2 := length (flat_map callees rest));
      [apply Hn | | unfold list_sum; cbn [fold_right]; lia | lia].
    intros v s1.
    apply bounded_seq with (e1 := list_sum (map size rest))
      (i1 := length (flat_map callees rest)) (e2 := 0) (i2 := 0);
      [apply IH | intros; apply bounded_ret | lia | lia].
Qed.

Lemma bounded_applyBinary (operator : string) (l r : Value) (s : store W) :
  bounded s (applyBinary B operator l r s) 0 0.
Proof.
  unfold applyBinary, arithmetic, relational, compare_with.
  destruct (String.eqb operator "+").
  { destruct l, r; try apply bounded_ret;
      (apply bounded_still; [apply bounded_to_string|];
       intros x s1; apply bounded_still; [apply bounded_to_string|];
       intros; apply bounded_ret). }
  repeat (destruct (String.eqb operator _);
          [first [apply bounded_ret
                 | apply bounded_still; [apply bounded_to_number|];
                   intros x s1; apply bounded_still; [apply bounded_to_number|];
                   intros; apply bounded_ret
                 | apply bounded_still; [|intros; apply bounded_ret];
                   apply bounded_still; [apply bounded_to_primitive|];
                   intros x s1;
                   apply bounded_still; [apply bounded_to_primitive|];
                   intros; apply bounded_ret]|]).
  apply bounded_throw.
Qed.

Lemma evaluateNode_bounded (n : node) :
  forall s, bounded s (evaluateNode B st n s) (size n) (length (callees n)).
Proof.
  induction n as [value | name | object property computed IHo IHp
                  | callee arguments IHargs | operator lhs rhs IHl IHr
                  | operator pre argument IHa
                  | test consequent alternate IHt IHc IHalt | type]
    using node_induction; cbn [size callees length]; intros s;
    rewrite evaluateNode_unfold; rewrite ?length_app; apply bounded_frame.
  - apply bounded_ret.
  - unfold evaluateIdentifier.
    destruct (negb _); [apply bounded_throw | apply bounded_ret].
  - unfold evaluateMemberExpression.
    apply bounded_seq with (e1 := size object) (i1 := length (callees object))
      (e2 := size property)
      (i2 := length (if computed then callees property else []));
      [apply IHo | | lia | lia].
    intros obj s1.
    destruct (is_nullish obj);
      [apply (bounded_weaken _ _ 0 0); [lia | lia | apply bounded_throw]|].
    destruct computed.
    + apply bounded_seq with (e1 := size property)
        (i1 := length (callees property)) (e2 := 0) (i2 := 0);
        [|intros; apply bounded_ret | lia | lia].
      apply bounded_seq with (e1 := size property)
        (i1 := length (callees property)) (e2 := 0) (i2 := 0);
        [apply IHp | intros; apply bounded_to_string | lia | lia].
    + apply bounded_seq with (e1 := 0) (i1 := 0) (e2 := 0) (i2 := 0);
        [apply bounded_ret | intros; apply bounded_ret | lia | cbn; lia].
  - unfold evaluateCallExpression.
    destruct (lookup_function st callee) as [func|];
      [|apply (bounded_weaken _ _ 0 0); [lia | lia | apply bounded_throw]].
    apply bounded_seq with (e1 := list_sum (map size arguments))
      (i1 := length (flat_map callees arguments)) (e2 := 0) (i2 := 1);
      [now apply bounded_arguments | intros; apply bounded_invoke | lia | lia].
  - unfold evaluateBinaryExpression.
    apply bounded_seq with (e1 := size lhs) (i1 := length (callees lhs))
      (e2 := size rhs) (i2 := length (callees rhs)); [apply IHl | | lia | lia].
    intros l s1.
    apply bounded_seq with (e1 := size rhs) (i1 := length (callees rhs))
      (e2 := 0) (i2 := 0);
      [apply IHr | intros; apply bounded_applyBinary | lia | lia].
  - unfold evaluateUnaryExpression.
    apply bounded_seq with (e1 := size argument)
      (i1 := length (callees argument)) (e2 := 0) (i2 := 0);
      [apply IHa | | lia | lia].
    intros arg s1. destruct pre; [|apply bounded_throw].
    destruct (String.eqb operator "!"); [apply bounded_ret|].
    destruct (String.eqb operator "-"); [|apply bounded_throw].
    destruct arg; try apply bounded_ret;
      (apply bounded_still; [apply bounded_to_string|];
       intros; apply bounded_throw).
  - unfold evaluateConditionalExpression.
    apply bounded_seq with (e1 := size test) (i1 := length (callees test))
      (e2 := size consequent + size alternate)
      (i2 := length (callees consequent) + length (callees alternate));
      [apply IHt | | lia | lia].
    intros t s1. destruct (truthy t).
    + eapply bounded_weaken; [| |apply IHc]; lia.
    + eapply bounded_weaken; [| |apply IHalt]; lia.
  - apply bounded_throw.
Qed.
End Bounded.

(** X3.  An evaluation only adds to the trace; it enters at most as many
    nodes as the AST has and invokes at most as many host functions as the
    AST has call expressions. *)
Theorem evaluation_is_bounded_by_the_ast
    {W : Type} (B : Builtins W) (st : InterpreterState W) (n : node)
    (s : store W) :
  exists evs,
    trace (snd (evaluateNode B st n s)) = trace s ++ evs /\
    entries evs <= size n /\
    invocations evs <= length (callees n).
Proof. apply evaluateNode_bounded. Qed.

(** ** Where a failure comes from *)

Section Accounted.
Context {W : Type}.
Variable B : Builtins W.
Variable st : InterpreterState W.













End Accounted.


(** ** Calls *)

Section Calls.
Context {W : Type}.
Variable B : Builtins W.
Variable st : InterpreterState W.

(** A name of the function table itself is found there. *)
Lemma lookup_function_own (callee : string) (func : host_function W) :
  functions st !! callee = Some func -> lookup_function st callee = Some func.
Proof. unfold lookup_function. now intros ->. Qed.

Lemma evaluateArguments_app_cases (f : node -> M W Value)
    (pre post : list node) (s : store W) :
  evaluateArguments f (pre ++ post) s =
    match evaluateArguments f pre s with
    | (Throw e, s1) => (Throw e, s1)
    | (Normal vs1, s1) =>
        match evaluateArguments f post s1 with
        | (Throw e, s2) => (Throw e, s2)
        | (Normal vs2, s2) => (Normal (vs1 ++ vs2), s2)
        end
    end.
Proof.
  rewrite evaluateArguments_app. unfold bind.
  destruct (evaluateArguments _ pre s) as [[vs1|e] s1]; [|reflexivity].
  now destruct (evaluateArguments _ post s1) as [[vs2|e] s2].
Qed.

(** X5.  The arguments of a call are evaluated from left to right, each
    from the store the one before left: a list [pre ++ post] gives the values
    of [pre] followed by those of [post], and stops at the first throw. *)
Theorem arguments_are_evaluated_left_to_right
    (pre post : list node) (s : store W) :
  evaluateArguments (evaluateNode B st) (pre ++ post) s =
    match evaluateArguments (evaluateNode B st) pre s with
    | (Throw e, s1) => (Throw e, s1)
    | (Normal vs1, s1) =>
        match evaluateArguments (evaluateNode B st) post s1 with
        | (Throw e, s2) => (Throw e, s2)
        | (Normal vs2, s2) => (Normal (vs1 ++ vs2), s2)
        end
    end.
Proof. apply evaluateArguments_app_cases. Qed.

(** X6.  When the callee is registered and the arguments have evaluated to
    values, the function is invoked once, on exactly as many values as there
    are arguments, in the world the arguments left; its result is returned
    as it is and its throw goes through the call's own catch clause. *)
Theorem call_invokes_the_function_on_the_values
    (callee : string) (arguments : list node) (func : host_function W)
    (s s1 : store W) (values : list Value) (result : completion Value) (w : W) :
  functions st !! callee = Some func ->
  evaluateArguments (evaluateNode B st) arguments
    (entered (CallExpression callee arguments) s) = (Normal values, s1) ->
  func values (host s1) = (result, w) ->
  evaluateNode B st (CallExpression callee arguments) s =
    (match result with
     | Normal v => Normal v
     | Throw e => Throw (rethrow e)
     end,
     {| host := w; trace := trace s1 ++ [Invoke callee values result] |}) /\
  length values = length arguments.
Proof.
  intros Hf Hargs Hcall. split; [|eauto using evaluateArguments_length].
  rewrite evaluateNode_unfold. unfold evaluateCallExpression, try_catch.
  rewrite (lookup_function_own _ _ Hf). unfold bind. rewrite Hargs.
  unfold invoke. rewrite Hcall. now destruct result.
Qed.

(** X7.  When an argument of a call to a registered function throws, the
    call fails with that error, re-wrapped once, in the store that argument
    left: the arguments after it are not evaluated and the function is not
    invoked. *)
Theorem failing_argument_aborts_the_call
    (callee : string) (func : host_function W) (pre post : list node)
    (failing : node) (s s1 s2 : store W) (values : list Value) (e : thrown) :
  functions st !! callee = Some func ->
  evaluateArguments (evaluateNode B st) pre
    (entered (CallExpression callee (pre ++ failing :: post)) s)
    = (Normal values, s1) ->
  evaluateNode B st failing s1 = (Throw e, s2) ->
  evaluateNode B st (CallExpression callee (pre ++ failing :: post)) s =
    (Throw (rethrow e), s2).
Proof.
  intros Hf Hpre Hfail. rewrite evaluateNode_unfold.
  unfold evaluateCallExpression, try_catch.
  rewrite (lookup_function_own _ _ Hf).
  unfold bind at 1. rewrite evaluateArguments_app_cases, Hpre.
  cbn [evaluateArguments]. unfold bind at 1. now rewrite Hfail.
Qed.
End Calls.

(** ** Operators *)

Section Operators.
Context {W : Type}.
Variable B : Builtins W.
Variable st : InterpreterState W.

















(** X9.  A binary expression whose left operand throws, or whose right
    operand throws after the left one evaluated, fails with that error
    re-wrapped once, whatever the operator is: [false && e] fails when [e]
    does. *)
Theorem failing_operand_aborts_the_binary_expression
    (operator : string) (lhs rhs : node) (s s2 : store W) (e : thrown) :
  evaluateNode B st lhs (entered (BinaryExpression operator lhs rhs) s)
    = (Throw e, s2) \/
  (exists a s1,
      evaluateNode B st lhs (entered (BinaryExpression operator lhs rhs) s)
        = (Normal a, s1) /\
      evaluateNode B st rhs s1 = (Throw e, s2)) ->
  evaluateNode B st (BinaryExpression operator lhs rhs) s =
    (Throw (rethrow e), s2).
Proof.
  intros H. rewrite evaluateNode_unfold.
  unfold evaluateBinaryExpression, try_catch, bind.
  destruct H as [Hl | (a & s1 & Hl & Hr)]; rewrite Hl; [reflexivity|].
  now rewrite Hr.
Qed.

(** X10.  A prefix operator other than [!] and [-] is rejected with
    [UnknownOperator], once the argument has been evaluated. *)
Theorem unknown_prefix_operator_is_rejected_after_the_argument
    (operator : string) (argument : node) (s s1 : store W) (v : Value) :
  evaluateNode B st argument
    (entered (UnaryExpression operator true argument) s) = (Normal v, s1) ->
  operator <> "!" -> operator <> "-" ->
  evaluateNode B st (UnaryExpression operator true argument) s =
    (Throw (unwound 1 (UnknownOperator operator)), s1).
Proof.
  intros Ha Hn1 Hn2. rewrite evaluateNode_unfold.
  unfold evaluateUnaryExpression, try_catch, bind. rewrite Ha.
  destruct (String.eqb_spec operator "!") as [|_]; [contradiction|].
  destruct (String.eqb_spec operator "-") as [|_]; [contradiction|].
  reflexivity.
Qed.
End Operators.

(** ** The entry point and the state objects, composed *)

Section Composition.
Context {W : Type}.
Variable B : Builtins W.
Implicit Types (h : gmap positive (object W)) (l : positive).

Lemma evaluate_plain (ast : Program) (state : positive) h (w : W)
    (st : InterpreterState W) :
  view h state = Some st ->
  evaluate B ast state None h w =
    Some (evaluateNode B st (body ast) {| host := w; trace := [] |}, h).
Proof. intros Hv. unfold evaluate. cbn. now rewrite Hv. Qed.

Lemma evaluate_overridden (state override : positive) h
    (st : InterpreterState W) (over : gmap string Value) :
  view h state = Some st ->
  read_context h override = Some over ->
  exists h',
    h ⊆ h' /\
    forall ast (w : W),
      evaluate B ast state (Some override) h w =
        Some (evaluateNode B
                {| context := over ∪ context st;
                   functions := functions st;
                   context_prototype := object_prototype B;
                   functions_prototype := functions_prototype st |}
                (body ast) {| host := w; trace := [] |}, h').
Proof.
  intros Hv Ho.
  destruct (proj1 (view_lookup _ _ _) Hv) as (c & f & Hs & Hc & Hf).
  set (a1 := alloc (ContextObject (over ∪ context st) (object_prototype B)) h).
  set (a2 := alloc (StateObject a1.1 f) a1.2).
  assert (Hsub1 : h ⊆ a1.2) by apply alloc_extends.
  assert (Hsub2 : a1.2 ⊆ a2.2) by apply alloc_extends.
  assert (Hsub : h ⊆ a2.2) by (etrans; eassumption).
  assert (Hview : view a2.2 a2.1 =
            Some {| context := over ∪ context st;
                    functions := functions st;
                    context_prototype := object_prototype B;
                    functions_prototype := functions_prototype st |}).
  { apply view_lookup. exists a1.1, f. cbn [context functions
      context_prototype functions_prototype]. repeat split.
    - subst a2. apply alloc_lookup.
    - apply (lookup_weaken a1.2); [|exact Hsub2]. subst a1. apply alloc_lookup.
    - exact (lookup_weaken _ _ _ _ Hf Hsub). }
  exists a2.2. split; [exact Hsub|]. intros ast w.
  assert (Hrs : read_state h state = Some (c, f))
    by (unfold read_state; now rewrite Hs).
  assert (Hrc : read_context h c = Some (context st))
    by (unfold read_context; now rewrite Hc).
  unfold evaluate. rewrite Hrs. cbn. rewrite Hrc. cbn. rewrite Ho. cbn.
  subst a2 a1. cbn in Hview. now rewrite Hview.
Qed.

Lemma setFunction_view h (s1 : positive) (st : InterpreterState W)
    (name : string) (fn : host_function W) :
  view h s1 = Some st ->
  exists s2 h2,
    setFunction B s1 name fn h = Some (s2, h2) /\
    h ⊆ h2 /\
    view h2 s2 =
      Some {| context := context st;
              functions := <[name := fn]> (functions st);
              context_prototype := context_prototype st;
              functions_prototype := object_prototype_call B |}.
Proof.
  intros Hv.
  destruct (proj1 (view_lookup _ _ _) Hv) as (c & f & Hs & Hc & Hf).
  set (a1 := alloc (FunctionsObject (<[name := fn]> (functions st))
                      (object_prototype_call B)) h).
  set (a2 := alloc (StateObject c a1.1) a1.2).
  assert (Hsub1 : h ⊆ a1.2) by apply alloc_extends.
  assert (Hsub2 : a1.2 ⊆ a2.2) by apply alloc_extends.
  assert (Hsub : h ⊆ a2.2) by (etrans; eassumption).
  exists a2.1, a2.2. repeat split.
  - assert (Hrs : read_state h s1 = Some (c, f))
      by (unfold read_state; now rewrite Hs).
    assert (Hrf : read_functions h f = Some (functions st))
      by (unfold read_functions; now rewrite Hf).
    unfold setFunction. rewrite Hrs. cbn. rewrite Hrf. cbn. now destruct a2.
  - exact Hsub.
  - apply view_lookup. exists c, a1.1. cbn [context functions
      context_prototype functions_prototype]. repeat split.
    + subst a2. apply alloc_lookup.
    + exact (lookup_weaken _ _ _ _ Hc Hsub).
    + apply (lookup_weaken a1.2); [|exact Hsub2]. subst a1. apply alloc_lookup.
Qed.

(** X12.  After an evaluation with an override, [state] evaluates as it did
    before: in the store that evaluation leaves, an evaluation without
    override runs against the context and functions [state] had. *)
Theorem the_override_does_not_persist
    (ast : Program) (state override : positive) h (w : W)
    (st : InterpreterState W) (over : gmap string Value) r s' h' :
  view h state = Some st ->
  read_context h override = Some over ->
  evaluate B ast state (Some override) h w = Some (r, s', h') ->
  forall ast' (w' : W),
    evaluate B ast' state None h' w' =
      Some (evaluateNode B st (body ast') {| host := w'; trace := [] |}, h').
Proof.
  intros Hv Ho He ast' w'.
  destruct (evaluate_overridden _ _ _ _ _ Hv Ho) as (h1 & Hsub & Heq).
  rewrite Heq in He. injection He as _ <-.
  apply evaluate_plain. eauto using view_extends.
Qed.


(** X14.  Registering the same name twice leaves the state that one
    registration of the second function gives. *)
Theorem the_last_registration_wins
    h (s0 s1 s2 : positive) h1 h2 (st : InterpreterState W) (name : string)
    (fn1 fn2 : host_function W) :
  view h s0 = Some st ->
  setFunction B s0 name fn1 h = Some (s1, h1) ->
  setFunction B s1 name fn2 h1 = Some (s2, h2) ->
  view h2 s2 =
    Some {| context := context st;
            functions := <[name := fn2]> (functions st);
            context_prototype := context_prototype st;
            functions_prototype := object_prototype_call B |}.
Proof.
  intros Hv H1 H2.
  destruct (setFunction_view _ _ _ name fn1 Hv) as (a1 & g1 & E1 & _ & V1).
  rewrite E1 in H1. injection H1 as <- <-.
  destruct (setFunction_view _ _ _ name fn2 V1) as (a2 & g2 & E2 & _ & V2).
  rewrite E2 in H2. injection H2 as <- <-.
  rewrite V2. cbn. now rewrite insert_insert_eq.
Qed.

(** X15.  Registering two different names in either order gives states
    that denote the same context and function table. *)
Theorem registrations_of_different_names_commute
    h (s0 a1 a2 b1 b2 : positive) ha1 ha2 hb1 hb2 (st : InterpreterState W)
    (name1 name2 : string) (fn1 fn2 : host_function W) :
  view h s0 = Some st ->
  name1 <> name2 ->
  setFunction B s0 name1 fn1 h = Some (a1, ha1) ->
  setFunction B a1 name2 fn2 ha1 = Some (a2, ha2) ->
  setFunction B s0 name2 fn2 h = Some (b1, hb1) ->
  setFunction B b1 name1 fn1 hb1 = Some (b2, hb2) ->
  view ha2 a2 = view hb2 b2 /\ is_Some (view ha2 a2).
Proof.
  intros Hv Hne A1 A2 B1 B2.
  destruct (setFunction_view _ _ _ name1 fn1 Hv) as (x1 & g1 & E1 & _ & V1).
  rewrite E1 in A1. injection A1 as <- <-.
  destruct (setFunction_view _ _ _ name2 fn2 V1) as (x2 & g2 & E2 & _ & V2).
  rewrite E2 in A2. injection A2 as <- <-.
  destruct (setFunction_view _ _ _ name2 fn2 Hv) as (y1 & k1 & F1 & _ & U1).
  rewrite F1 in B1. injection B1 as <- <-.
  destruct (setFunction_view _ _ _ name1 fn1 U1) as (y2 & k2 & F2 & _ & U2).
  rewrite F2 in B2. injection B2 as <- <-.
  rewrite V2, U2. cbn. split; [|eauto].
  now rewrite insert_insert_ne by done.
Qed.


(** X17.  [createInterpreterState] returns a new state object.  It refers to
    the very context object it is given and to the very function table it is
    given, each whether or not the other is given, without copying them; for
    one it is not given it refers to a new empty ordinary object.  The state
    denotes what those objects hold, and no object that existed before is
    changed. *)
Theorem createInterpreterState_refers_to_what_it_is_given
    (context functions : option positive) h
    (ctx ctxp : gmap string Value) (fns fnsp : gmap string (host_function W)) :
  match context with
  | Some c => h !! c = Some (ContextObject ctx ctxp)
  | None => ctx = ∅ /\ ctxp = object_prototype B
  end ->
  match functions with
  | Some f => h !! f = Some (FunctionsObject fns fnsp)
  | None => fns = ∅ /\ fnsp = object_prototype_call B
  end ->
  let '(state, h') := createInterpreterState B context functions h in
  view h' state =
    Some {| context := ctx; functions := fns;
            context_prototype := ctxp; functions_prototype := fnsp |} /\
  (forall l o, h !! l = Some o -> h' !! l = Some o) /\
  h !! state = None /\
  exists c f,
    h' !! state = Some (StateObject c f) /\
    match context with
    | Some given => c = given
    | None => h !! c = None
    end /\
    match functions with
    | Some given => f = given
    | None => h !! f = None
    end.
Proof.
  intros Hc Hf. unfold createInterpreterState.
  set (a1 := match context with
             | Some c => (c, h)
             | None => alloc (ContextObject ∅ (object_prototype B)) h
             end).
  assert (H1 : h ⊆ a1.2 /\ a1.2 !! a1.1 = Some (ContextObject ctx ctxp) /\
               match context with
               | Some given => a1.1 = given
               | None => h !! a1.1 = None
               end).
  { subst a1. destruct context as [c|]; cbn [fst snd]; [now repeat split|].
    destruct Hc as [-> ->]. split; [apply alloc_extends|].
    split; [apply alloc_lookup | apply alloc_fresh]. }
  destruct a1 as [c h1] eqn:E1. cbn [fst snd] in H1.
  destruct H1 as (S1 & R1 & G1).
  set (a2 := match functions with
             | Some f => (f, h1)
             | None => alloc (FunctionsObject ∅ (object_prototype_call B)) h1
             end).
  assert (H2 : h1 ⊆ a2.2 /\ a2.2 !! a2.1 = Some (FunctionsObject fns fnsp) /\
               match functions with
               | Some given => a2.1 = given
               | None => h !! a2.1 = None
               end).
  { subst a2. destruct functions as [f|]; cbn [fst snd].
    - repeat split; trivial. exact (lookup_weaken _ _ _ _ Hf S1).
    - destruct Hf as [-> ->]. split; [apply alloc_extends|].
      split; [apply alloc_lookup | now apply alloc_fresh_below]. }
  destruct a2 as [f h2] eqn:E2. cbn [fst snd] in H2.
  destruct H2 as (S2 & R2 & G2).
  set (a3 := alloc (StateObject c f) h2).
  assert (S3 : h2 ⊆ a3.2) by apply alloc_extends.
  assert (R3 : a3.2 !! a3.1 = Some (StateObject c f))
    by (subst a3; apply alloc_lookup).
  assert (F3 : h !! a3.1 = None)
    by (subst a3; apply alloc_fresh_below; etrans; eassumption).
  destruct a3 as [state h3]. cbn [fst snd] in *.
  split; [|split; [|split; [exact F3|]]].
  - apply view_lookup. exists c, f. cbn.
    repeat split; trivial.
    + apply (lookup_weaken h1); [exact R1 | etrans; eassumption].
    + exact (lookup_weaken _ _ _ _ R2 S3).
  - intros l o Hl. apply (lookup_weaken h); [exact Hl|].
    etrans; [exact S1|]. etrans; eassumption.
  - exists c, f. now repeat split.
Qed.
End Composition.

(** ** Witnesses of the further properties *)

Lemma reads_only_the_names_that_occur_witness :
  let n := MemberExpression (Identifier "data") (Identifier "value") false in
  evaluateNode sample_builtins sample_state n sample_store =
  evaluateNode sample_builtins other_state n sample_store.
Proof.
  apply (evaluation_reads_only_the_names_that_occur sample_builtins
           sample_state other_state
           (MemberExpression (Identifier "data") (Identifier "value") false)
           sample_store).
  - intros x [<- | []]. reflexivity.
  - intros f [].
Defined.



Lemma call_invokes_the_function_witness :
  let n := CallExpression "count" [Literal (LNumber 1)] in
  evaluateNode sample_builtins sample_state n sample_store =
    (Normal (VBool true),
     {| host := 1;
        trace := [Enter n; Enter (Literal (LNumber 1))] ++
                 [Invoke "count" [VNum 1] (Normal (VBool true))] |}) /\
  length [VNum 1] = length [Literal (LNumber 1)].
Proof.
  apply (call_invokes_the_function_on_the_values sample_builtins sample_state
           "count" [Literal (LNumber 1)] count_calls sample_store
           {| host := 0;
              trace := [Enter (CallExpression "count" [Literal (LNumber 1)]);
                        Enter (Literal (LNumber 1))] |}
           [VNum 1] (Normal (VBool true)) 1); reflexivity.
Defined.

Lemma failing_argument_witness :
  let n := CallExpression "count"
             ([Literal (LNumber 1)] ++
              Identifier "missing" :: [CallExpression "count" []]) in
  evaluateNode sample_builtins sample_state n sample_store =
    (Throw (rethrow (ExpressionError
                       "Evaluation error: Undefined variable: missing")),
     {| host := 0;
        trace := [Enter n; Enter (Literal (LNumber 1));
                  Enter (Identifier "missing")] |}).
Proof.
  apply (failing_argument_aborts_the_call sample_builtins sample_state
           "count" count_calls [Literal (LNumber 1)]
           [CallExpression "count" []] (Identifier "missing") sample_store
           {| host := 0;
              trace := [Enter (CallExpression "count"
                                 ([Literal (LNumber 1)] ++
                                  Identifier "missing" ::
                                  [CallExpression "count" []]));
                        Enter (Literal (LNumber 1))] |}
           _ [VNum 1]); reflexivity.
Defined.


Lemma failing_operand_witness :
  let n := BinaryExpression "&&" (Literal (LBoolean false))
             (Identifier "missing") in
  evaluateNode sample_builtins sample_state n sample_store =
    (Throw (rethrow (ExpressionError
                       "Evaluation error: Undefined variable: missing")),
     {| host := 0;
        trace := [Enter n; Enter (Literal (LBoolean false));
                  Enter (Identifier "missing")] |}).
Proof.
  apply (failing_operand_aborts_the_binary_expression sample_builtins
           sample_state "&&" (Literal (LBoolean false)) (Identifier "missing")
           sample_store).
  right. eexists _, _. split; reflexivity.
Defined.

Lemma unknown_prefix_operator_witness :
  let n := UnaryExpression "~" true (Literal (LNumber 1)) in
  evaluateNode sample_builtins sample_state n sample_store =
    (Throw (unwound 1 (UnknownOperator "~")),
     {| host := 0; trace := [Enter n; Enter (Literal (LNumber 1))] |}).
Proof.
  apply (unknown_prefix_operator_is_rejected_after_the_argument
           sample_builtins sample_state "~" (Literal (LNumber 1)) sample_store
           _ (VNum 1)); [reflexivity | discriminate | discriminate].
Defined.

Lemma override_does_not_persist_witness :
  match evaluate sample_builtins {| body := Identifier "nothing" |} 3
          (Some 4%positive) sample_heap 0 with
  | Some (_, _, h') =>
      evaluate sample_builtins {| body := Identifier "nothing" |} 3 None h' 0 =
        Some (evaluateNode sample_builtins sample_state (Identifier "nothing")
                {| host := 0; trace := [] |}, h')
  | None => False
  end.
Proof.
  destruct (evaluate sample_builtins {| body := Identifier "nothing" |} 3
              (Some 4%positive) sample_heap 0) as [[[r s'] h']|] eqn:E.
  - exact (the_override_does_not_persist sample_builtins
             {| body := Identifier "nothing" |} 3 4 sample_heap 0 sample_state
             (<["nothing" := VNum 7]> ∅) r s' h' eq_refl eq_refl E
             {| body := Identifier "nothing" |} 0).
  - vm_compute in E. discriminate.
Defined.


Lemma last_registration_wins_witness :
  match setFunction sample_builtins 3 "f" count_calls sample_heap with
  | Some (s1, h1) =>
      match setFunction sample_builtins s1 "f" host_failure h1 with
      | Some (s2, h2) =>
          view h2 s2 =
            Some {| context := context sample_state;
                    functions :=
                      <["f" := host_failure]> (functions sample_state);
                    context_prototype := context_prototype sample_state;
                    functions_prototype :=
                      object_prototype_call sample_builtins |}
      | None => False
      end
  | None => False
  end.
Proof.
  destruct (setFunction sample_builtins 3 "f" count_calls sample_heap)
    as [[s1 h1]|] eqn:E1; [|vm_compute in E1; discriminate].
  destruct (setFunction sample_builtins s1 "f" host_failure h1)
    as [[s2 h2]|] eqn:E2.
  - exact (the_last_registration_wins sample_builtins sample_heap 3 s1 s2 h1 h2
             sample_state "f" count_calls host_failure eq_refl E1 E2).
  - vm_compute in E1. injection E1 as <- <-. vm_compute in E2. discriminate.
Defined.

Lemma registrations_commute_witness :
  match setFunction sample_builtins 3 "f" count_calls sample_heap,
        setFunction sample_builtins 3 "g" host_failure sample_heap with
  | Some (a1, ha1), Some (b1, hb1) =>
      match setFunction sample_builtins a1 "g" host_failure ha1,
            setFunction sample_builtins b1 "f" count_calls hb1 with
      | Some (a2, ha2), Some (b2, hb2) =>
          view ha2 a2 = view hb2 b2 /\ is_Some (view ha2 a2)
      | _, _ => False
      end
  | _, _ => False
  end.
Proof.
  destruct (setFunction sample_builtins 3 "f" count_calls sample_heap)
    as [[a1 ha1]|] eqn:A1; [|vm_compute in A1; discriminate].
  destruct (setFunction sample_builtins 3 "g" host_failure sample_heap)
    as [[b1 hb1]|] eqn:B1; [|vm_compute in B1; discriminate].
  destruct (setFunction sample_builtins a1 "g" host_failure ha1)
    as [[a2 ha2]|] eqn:A2;
    [|vm_compute in A1; injection A1 as <- <-; vm_compute in A2; discriminate].
  destruct (setFunction sample_builtins b1 "f" count_calls hb1)
    as [[b2 hb2]|] eqn:B2;
    [|vm_compute in B1; injection B1 as <- <-; vm_compute in B2; discriminate].
  refine (registrations_of_different_names_commute sample_builtins sample_heap
            3 a1 a2 b1 b2 ha1 ha2 hb1 hb2 sample_state "f" "g" count_calls
            host_failure eq_refl _ A1 A2 B1 B2).
  discriminate.
Defined.


(** Given the context at address 1 and no function table. *)
Lemma createInterpreterState_witness :
  let '(state, h') :=
    createInterpreterState sample_builtins (Some 1%positive) None sample_heap in
  view h' state =
    Some {| context := context sample_state;
            functions := ∅;
            context_prototype := context_prototype sample_state;
            functions_prototype := object_prototype_call sample_builtins |} /\
  (forall l o, sample_heap !! l = Some o -> h' !! l = Some o) /\
  sample_heap !! state = None /\
  exists c f,
    h' !! state = Some (StateObject c f) /\
    c = 1%positive /\
    sample_heap !! f = None.
Proof.
  exact (createInterpreterState_refers_to_what_it_is_given sample_builtins
           (Some 1%positive) None sample_heap
           (context sample_state) (context_prototype sample_state)
           ∅ (object_prototype_call sample_builtins)
           eq_refl (conj eq_refl eq_refl)).
Defined.
